(** * Tablero EO – Tren Maya: the column-normalisation and row-cleaning pipeline

    A shallow embedding of [app.py]: header normalisation
    ([normalize_columns]), alias resolution ([apply_aliases]), the schema
    gate ([ensure_required]), the row cleaner ([coerce_plazas_numeric],
    [drop_total_like_rows]), the sidebar filter block and the ordering of
    the position-type chart, followed by the properties established about
    them. *)

From Stdlib Require Import String Ascii NArith ZArith Sorting.Sorted.
From stdpp Require Import base decidable option list sorting gmap.

Local Open Scope N_scope.

(** ** Python text

    A Python [str] is a sequence of Unicode code points.  Literals of the
    source are written as Rocq strings (UTF-8 bytes) and decoded by [py]. *)

Abbreviation pystr := (list N).

Fixpoint utf8_decode (bs : list N) : list N :=
  match bs with
  | [] => []
  | b0 :: t0 =>
    if b0 <? 128 then b0 :: utf8_decode t0
    else
      match t0 with
      | [] => []
      | b1 :: t1 =>
        if b0 <? 224 then ((b0 - 192) * 64 + (b1 - 128)) :: utf8_decode t1
        else
          match t1 with
          | [] => []
          | b2 :: t2 =>
            if b0 <? 240
            then ((b0 - 224) * 4096 + (b1 - 128) * 64 + (b2 - 128)) :: utf8_decode t2
            else
              match t2 with
              | [] => []
              | b3 :: t3 =>
                ((b0 - 240) * 262144 + (b1 - 128) * 4096 + (b2 - 128) * 64 + (b3 - 128))
                  :: utf8_decode t3
              end
          end
      end
  end.

Definition py (s : string) : pystr :=
  utf8_decode (map N_of_ascii (list_ascii_of_string s)).

Definition LF : N := 10.
Definition CR : N := 13.
Definition TAB : N := 9.
Definition SP : N := 32.

(** [str.isspace] on one code point: the characters [str.strip()] removes. *)
Definition isspace (c : N) : bool :=
  ((9 <=? c) && (c <=? 13)) || ((28 <=? c) && (c <=? 32))
  || (c =? 133) || (c =? 160) || (c =? 5760)
  || ((8192 <=? c) && (c <=? 8202))
  || (c =? 8232) || (c =? 8233) || (c =? 8239) || (c =? 8287) || (c =? 12288).

Fixpoint startswith (p s : pystr) : bool :=
  match p, s with
  | [], _ => true
  | _ :: _, [] => false
  | a :: p', b :: s' => (a =? b) && startswith p' s'
  end.

(** [old in s] for a non-empty [old]. *)
Fixpoint str_contains (old s : pystr) : bool :=
  startswith old s
  || match s with
     | [] => false
     | _ :: t => str_contains old t
     end.

(** [s.replace(old, new)] for a non-empty [old]: one left-to-right scan over
    [s]; an occurrence found at the current position is replaced and the scan
    resumes after it ([skip] counts the characters of the occurrence still to
    be passed over), so occurrences never overlap and the replaced text is not
    scanned again. *)
Fixpoint replace_scan (old new : pystr) (skip : nat) (s : pystr) : pystr :=
  match s with
  | [] => []
  | c :: t =>
    match skip with
    | S k => replace_scan old new k t
    | O =>
      if startswith old s
      then new ++ replace_scan old new (length old - 1) t
      else c :: replace_scan old new 0 t
    end
  end.

Definition str_replace (old new s : pystr) : pystr := replace_scan old new 0 s.

Fixpoint lstrip (s : pystr) : pystr :=
  match s with
  | [] => []
  | c :: t => if isspace c then lstrip t else s
  end.

Definition rstrip (s : pystr) : pystr := reverse (lstrip (reverse s)).

Definition str_strip (s : pystr) : pystr := rstrip (lstrip s).

(** ** Header Normalizer *)

(** The chain of [.str] calls of [normalize_columns], on one label. *)
Definition normalize_label (c : pystr) : pystr :=
  str_strip
    (str_replace [SP; SP] [SP]
       (str_replace [TAB] [SP]
          (str_replace [CR] [SP]
             (str_replace [LF] [SP] c)))).

Definition normalize_labels (cols : list pystr) : list pystr :=
  map normalize_label cols.

(** ** Case mapping

    [str.lower] and [str.upper] are the interpreter's full Unicode case
    mappings; they are taken as an interface.  What is used of [str.lower] is
    its value on Latin-1 text, where it maps [A-Z] and [U+00C0-U+00DE] (but
    not the multiplication sign [U+00D7]) 32 code points up and fixes the
    rest. *)

Definition lower_latin1 (c : N) : N :=
  if ((65 <=? c) && (c <=? 90)) || ((192 <=? c) && (c <=? 222) && negb (c =? 215))
  then c + 32 else c.

Class PyText := {
  str_lower : pystr -> pystr;
  str_upper : pystr -> pystr;
  str_lower_latin1 :
    forall s, Forall (fun c => c < 256) s -> str_lower s = map lower_latin1 s
}.

(** ** Alias Resolver *)

(** The [while "  " in s] loop of [norm]; every iteration shortens [s], so
    [length s] iterations are enough ([collapse_spaces_done]). *)
Fixpoint collapse_loop (fuel : nat) (s : pystr) : pystr :=
  match fuel with
  | O => s
  | S fuel' =>
    if str_contains [SP; SP] s
    then collapse_loop fuel' (str_replace [SP; SP] [SP] s)
    else s
  end.

Definition collapse_spaces (s : pystr) : pystr := collapse_loop (length s) s.

(** The alias table of [apply_aliases], in the order of the dict literal. *)
Definition aliases : list (pystr * list pystr) :=
  [ (py "Unidad", [py "unidad"]);
    (py "Coordinación", [py "coordinación"; py "coordinacion"]);
    (py "Dirección", [py "dirección"; py "direccion"]);
    (py "Tipo de Puesto", [py "tipo de puesto"; py "tipo puesto"; py "tipo_puesto"]);
    (py "Nivel Salarial", [py "nivel salarial"; py "nivel_salarial"]);
    (py "Tipo de Plaza", [py "tipo de plaza"; py "tipo plaza"; py "tipo_plaza"]);
    (py "Justificación", [py "justificación"; py "justificacion"]);
    (py "Plazas", [py "plazas"; py "no. plazas"; py "número de plazas";
                   py "numero de plazas"; py "num plazas"]);
    (py "PLAZAS OCUPADAS/VACANTES",
       [py "plazas ocupadas/vacantes"; py "plazas ocupadas vacantes";
        py "ocupadas/vacantes"; py "plazas ocupadas"; py "vacantes"]) ].

Section AliasResolver.
Context `{PyText}.

Definition norm (s : pystr) : pystr :=
  let s := str_lower (str_strip s) in
  let s := str_replace [TAB] [SP] (str_replace [CR] [SP] (str_replace [LF] [SP] s)) in
  collapse_spaces s.

(** [{norm(c): c for c in df.columns}]: built left to right, a later header
    with the same key replaces the earlier one. *)
Definition col_norm_map (cols : list pystr) : gmap (list N) (list N) :=
  foldl (fun m c => <[norm c := c]> m) ∅ cols.

(** The inner loop over [opts]: the header of the first alias whose key is
    in [col_norm_map], [None] when the loop ends without [break]. *)
Fixpoint found_original (m : gmap (list N) (list N)) (opts : list pystr)
  : option pystr :=
  match opts with
  | [] => None
  | opt :: rest =>
    match m !! norm opt with
    | Some original => Some original
    | None => found_original m rest
    end
  end.

(** Truth value of a [str]: non-empty. *)
Definition truthy (s : pystr) : bool :=
  match s with [] => false | _ :: _ => true end.

(** One iteration of the loop over [aliases.items()]. *)
Definition rename_step (cols : list pystr) (m rename_map : gmap (list N) (list N))
    (entry : pystr * list pystr) : gmap (list N) (list N) :=
  let '(canonical, opts) := entry in
  match found_original m opts with
  | Some found =>
    if truthy found && bool_decide (found ∈ cols)
    then <[found := canonical]> rename_map
    else rename_map
  | None => rename_map
  end.

Definition build_rename_map (table : list (pystr * list pystr)) (cols : list pystr)
  : gmap (list N) (list N) :=
  foldl (rename_step cols (col_norm_map cols)) ∅ table.

(** [df.rename(columns=rename_map)] on the labels: every label that is a
    key of the map is replaced, wherever it occurs. *)
Definition rename_labels (rename_map : gmap (list N) (list N)) (cols : list pystr)
  : list pystr :=
  map (fun c => default c (rename_map !! c)) cols.

Definition apply_aliases_labels (cols : list pystr) : list pystr :=
  rename_labels (build_rename_map aliases cols) cols.
End AliasResolver.

(** A text interface for running the model: the case mappings restricted to
    Latin-1, where lowering is [lower_latin1] and raising its inverse on
    letters; [U+00DF], [U+00B5] and [U+00FF], whose upper-case forms lie
    outside Latin-1 or are longer, are mapped as Python does. *)
Definition upper_latin1 (c : N) : list N :=
  if ((97 <=? c) && (c <=? 122)) || ((224 <=? c) && (c <=? 254) && negb (c =? 247))
  then [c - 32]
  else if c =? 223 then [83; 83]
  else if c =? 181 then [924]
  else if c =? 255 then [376]
  else [c].

Definition latin1_text : PyText :=
  {| str_lower := map lower_latin1;
     str_upper := fun s => concat (map upper_latin1 s);
     str_lower_latin1 := fun s _ => eq_refl |}.

(** ** Tables

    The scalars of a numeric column ([float64] in pandas) with their sum,
    their text form [str(x)], the parser [to_numeric] applies to text and
    [int(x)], as an interface; zero is neutral for the sum. *)

Class PandasScalars := {
  num : Type;
  num_eq_dec :: EqDecision num;
  num_zero : num;
  num_add : num -> num -> num;
  num_str : num -> pystr;
  num_int : num -> Z;
  parse_num : pystr -> option num;
  num_add_zero_r : forall x, num_add x num_zero = x
}.

(** What the script shows before it stops. *)
Inductive ui_event :=
  | UiError (missing : list pystr)
  | UiWrite (text : pystr)
  | UiWriteList (labels : list pystr).

Inductive error :=
  | KeyError (label : pystr)
  | NotASeries (label : pystr)
  | ValueError (text : pystr)
  | TypeError (text : pystr)
  | StopScript (shown : list ui_event).

Inductive result (A : Type) :=
  | Ok (a : A)
  | Raise (e : error).
Arguments Ok {A} a.
Arguments Raise {A} e.

#[global] Instance result_ret : MRet result := fun A a => Ok a.
#[global] Instance result_bind : MBind result :=
  fun A B f m => match m with Ok a => f a | Raise e => Raise e end.

Fixpoint mapM_result {A B} (f : A -> result B) (l : list A) : result (list B) :=
  match l with
  | [] => Ok []
  | a :: t => b ← f a; bs ← mapM_result f t; Ok (b :: bs)
  end.

Fixpoint foldM_result {A B} (f : B -> A -> result B) (b : B) (l : list A) : result B :=
  match l with
  | [] => Ok b
  | a :: t => b' ← f b a; foldM_result f b' t
  end.

(** Positions of a label among the column labels. *)
Fixpoint label_positions (label : pystr) (i : nat) (cols : list pystr) : list nat :=
  match cols with
  | [] => []
  | c :: t =>
    if decide (c = label) then i :: label_positions label (S i) t
    else label_positions label (S i) t
  end.

(** [df[label]] as a Series: the position of the one column with that label.
    An absent label is a [KeyError]; a label carried by several columns
    selects a sub-frame, on which none of the Series operations of the script
    ([.str], [pd.to_numeric], a row mask) is defined. *)
Definition column_index (label : pystr) (cols : list pystr) : result nat :=
  match label_positions label 0 cols with
  | [] => Raise (KeyError label)
  | [i] => Ok i
  | _ :: _ :: _ => Raise (NotASeries label)
  end.

(** [df[mask]] with a boolean Series: the rows whose mask entry is true. *)
Fixpoint mask_rows {A} (mask : list bool) (rs : list A) : list A :=
  match mask, rs with
  | b :: mask', r :: rs' => if b then r :: mask_rows mask' rs' else mask_rows mask' rs'
  | _, _ => []
  end.

Definition required : list pystr :=
  [ py "Unidad"; py "Coordinación"; py "Dirección"; py "Tipo de Puesto";
    py "Nivel Salarial"; py "Tipo de Plaza"; py "Justificación"; py "Plazas" ].

Definition ORDEN_PUESTO : list pystr :=
  [ py "Dirección General"; py "Titular de Unidad"; py "Coordinador General";
    py "Director de área"; py "Gerente"; py "Subgerente"; py "Enlace";
    py "Operativo" ].

Inductive errors_mode := errors_raise | errors_coerce.

Section Pipeline.
Context `{PyText} `{PandasScalars}.

(** A cell read from the sheet: empty ([NaN]), text, or a number. *)
Inductive cell :=
  | NaN
  | Text (s : pystr)
  | Number (x : num).

#[global] Instance cell_eq_dec : EqDecision cell.
Proof. solve_decision. Defined.

Record DataFrame := {
  columns : list pystr;
  rows : list (list cell)
}.

Definition cell_at (i : nat) (r : list cell) : cell := nth i r NaN.

Definition getitem (df : DataFrame) (label : pystr) : result (list cell) :=
  i ← column_index label (columns df);
  Ok (map (cell_at i) (rows df)).

Definition loc_mask (df : DataFrame) (mask : list bool) : DataFrame :=
  {| columns := columns df; rows := mask_rows mask (rows df) |}.

(** *** Header stages on a table *)

Definition normalize_columns (df : DataFrame) : DataFrame :=
  {| columns := normalize_labels (columns df); rows := rows df |}.

Definition apply_aliases (df : DataFrame) : DataFrame :=
  {| columns := apply_aliases_labels (columns df); rows := rows df |}.

(** *** Schema Validator *)

Definition missing_columns (df : DataFrame) : list pystr :=
  filter (fun c => c ∉ columns df) required.

Definition ensure_required (df : DataFrame) : result unit :=
  let missing := missing_columns df in
  match missing with
  | [] => Ok tt
  | _ :: _ =>
    Raise (StopScript
             [ UiError missing;
               UiWrite (py "Columnas detectadas en tu archivo:");
               UiWriteList (columns df) ])
  end.

(** *** Row Cleaner *)

(** [astype(str)] on one cell. *)
Definition astype_str (v : cell) : pystr :=
  match v with
  | NaN => py "nan"
  | Text s => s
  | Number x => num_str x
  end.

Definition safe_text_series (s : list cell) : list pystr :=
  map (fun v => str_strip (astype_str v)) s.

Definition to_numeric_cell (errors : errors_mode) (v : cell) : result cell :=
  match v with
  | NaN => Ok NaN
  | Number x => Ok (Number x)
  | Text s =>
    match parse_num s with
    | Some x => Ok (Number x)
    | None =>
      match errors with
      | errors_coerce => Ok NaN
      | errors_raise => Raise (ValueError s)
      end
    end
  end.

Definition to_numeric (errors : errors_mode) (s : list cell) : result (list cell) :=
  mapM_result (to_numeric_cell errors) s.

(** [df[label] = s] for the column at position [i]. *)
Fixpoint set_column (i : nat) (s : list cell) (rs : list (list cell))
  : list (list cell) :=
  match s, rs with
  | v :: s', r :: rs' => <[i := v]> r :: set_column i s' rs'
  | _, _ => rs
  end.

Definition coerce_plazas_numeric (df : DataFrame) : result DataFrame :=
  i ← column_index (py "Plazas") (columns df);
  s ← to_numeric errors_coerce (map (cell_at i) (rows df));
  Ok {| columns := columns df; rows := set_column i s (rows df) |}.

Definition notna (v : cell) : bool :=
  match v with NaN => false | _ => true end.

Definition isin_text (t : pystr) (values : list pystr) : bool :=
  bool_decide (t ∈ values).

(** One iteration of the loop over the four grouping columns. *)
Definition drop_total_step (df : DataFrame) (col : pystr) : result DataFrame :=
  if bool_decide (col ∈ columns df)
  then
    s ← getitem df col;
    let mask_total :=
      map (fun t => isin_text (str_upper t) [py "TOTAL"; py "TOTALES"])
          (safe_text_series s) in
    Ok (loc_mask df (map negb mask_total))
  else Ok df.

Definition drop_total_like_rows (df : DataFrame) : result DataFrame :=
  s ← getitem df (py "Tipo de Plaza");
  let df := loc_mask df (map notna s) in
  foldM_result drop_total_step df
    [ py "Dirección"; py "Tipo de Plaza"; py "Unidad"; py "Coordinación" ].

(** The script from the normalisation of the headers to the clean table. *)
Definition pipeline (df : DataFrame) : result DataFrame :=
  let df := normalize_columns df in
  let df := apply_aliases df in
  _ ← ensure_required df;
  df ← coerce_plazas_numeric df;
  drop_total_like_rows df.

(** *** Filter Engine *)

Record FilterSelection := {
  unidad_sel : list cell;
  coord_sel : list cell;
  dir_sel : list cell
}.

Definition isin (v : cell) (values : list cell) : bool :=
  bool_decide (v ∈ values).

(** [if sel: df_f = df_f[df_f[label].isin(sel)]] *)
Definition restrict (label : pystr) (sel : list cell) (df_f : DataFrame)
  : result DataFrame :=
  match sel with
  | [] => Ok df_f
  | _ :: _ =>
    s ← getitem df_f label;
    Ok (loc_mask df_f (map (fun v => isin v sel) s))
  end.

Definition filter_block (df : DataFrame) (sel : FilterSelection) : result DataFrame :=
  df_f ← restrict (py "Unidad") (unidad_sel sel) df;
  df_f ← restrict (py "Coordinación") (coord_sel sel) df_f;
  restrict (py "Dirección") (dir_sel sel) df_f.

(** *** The quantity figure of the second tab *)

Definition fillna (d v : cell) : cell :=
  match v with NaN => d | _ => v end.

(** [Series.sum()] of a numeric column: empty entries are skipped; text in
    the column is not summable. *)
Fixpoint series_sum (acc : num) (s : list cell) : result num :=
  match s with
  | [] => Ok acc
  | NaN :: t => series_sum acc t
  | Number x :: t => series_sum (num_add acc x) t
  | Text u :: _ => Raise (TypeError u)
  end.

(** [df_j]: the rows of the view with a justification. *)
Definition justified_rows (df_f : DataFrame) : result DataFrame :=
  j ← column_index (py "Justificación") (columns df_f);
  let as_str := map (fun r => Text (astype_str (cell_at j r))) (rows df_f) in
  let df_j := {| columns := columns df_f; rows := set_column j as_str (rows df_f) |} in
  s ← getitem df_j (py "Justificación");
  let df_j := loc_mask df_j (map notna s) in
  s ← getitem df_j (py "Justificación");
  let df_j :=
    loc_mask df_j
      (map (fun t => negb (bool_decide (t = []))) (safe_text_series s)) in
  s ← getitem df_j (py "Justificación");
  Ok (loc_mask df_j
        (map (fun t => negb (isin_text (str_upper t) [py "NAN"; py "NONE"]))
             (safe_text_series s))).

(** The figure "Plazas (suma)". *)
Definition plazas_suma (df_f : DataFrame) : result Z :=
  df_j ← justified_rows df_f;
  s ← getitem df_j (py "Plazas");
  s ← to_numeric errors_coerce s;
  total ← series_sum num_zero (map (fillna (Number num_zero)) s);
  Ok (num_int total).

(** *** The position-type chart *)

(** Distinct values in order of first appearance. *)
Fixpoint unique (s : list cell) : list cell :=
  match s with
  | [] => []
  | v :: t => v :: filter (fun w => w ≠ v) (unique t)
  end.

Definition count_of (v : cell) (s : list cell) : nat :=
  length (filter (fun w => w = v) s).

Definition by_count_desc : relation (cell * nat) :=
  fun a b => (b.2 ≤ a.2)%nat.

#[global] Instance by_count_desc_dec : RelDecision by_count_desc.
Proof. intros a b. unfold by_count_desc. apply _. Defined.

(** [Series.value_counts()]: one entry per distinct value, most frequent
    first; the order among equal counts is whatever the sort leaves. *)
Definition value_counts (s : list cell) : list (cell * nat) :=
  merge_sort by_count_desc (map (fun v => (v, count_of v s)) (unique s)).

Fixpoint count_lookup (v : cell) (vc : list (cell * nat)) : option nat :=
  match vc with
  | [] => None
  | (w, n) :: t => if decide (w = v) then Some n else count_lookup v t
  end.

(** [.reindex(labels)]: one entry per label, in the order of [labels], empty
    where the label has no count. *)
Definition reindex (labels : list cell) (vc : list (cell * nat))
  : list (cell * option nat) :=
  map (fun l => (l, count_lookup l vc)) labels.

Definition dropna (vc : list (cell * option nat)) : list (cell * nat) :=
  omap (fun e => match e.2 with Some n => Some (e.1, n) | None => None end) vc.

(** [.drop(index=labels, errors="ignore")] *)
Definition drop_index (labels : list cell) (vc : list (cell * nat))
  : list (cell * nat) :=
  filter (fun e => e.1 ∉ labels) vc.

Definition puesto_count (df_f : DataFrame) : result (list (cell * nat)) :=
  s ← getitem df_f (py "Tipo de Puesto");
  let puesto_series := map (fillna (Text (py "Sin Tipo de Puesto"))) s in
  let orden := map Text ORDEN_PUESTO in
  let puesto_count := dropna (reindex orden (value_counts puesto_series)) in
  let otros := drop_index orden (value_counts puesto_series) in
  Ok (match otros with
      | [] => puesto_count
      | _ :: _ => puesto_count ++ otros
      end).
End Pipeline.

(** Whole numbers in decimal notation, as scalars for running the model. *)
Fixpoint uint_codes (d : Decimal.uint) : list N :=
  match d with
  | Decimal.Nil => []
  | Decimal.D0 d => 48 :: uint_codes d
  | Decimal.D1 d => 49 :: uint_codes d
  | Decimal.D2 d => 50 :: uint_codes d
  | Decimal.D3 d => 51 :: uint_codes d
  | Decimal.D4 d => 52 :: uint_codes d
  | Decimal.D5 d => 53 :: uint_codes d
  | Decimal.D6 d => 54 :: uint_codes d
  | Decimal.D7 d => 55 :: uint_codes d
  | Decimal.D8 d => 56 :: uint_codes d
  | Decimal.D9 d => 57 :: uint_codes d
  end.

Definition Z_str (z : Z) : pystr :=
  match Z.to_int z with
  | Decimal.Pos d => uint_codes d
  | Decimal.Neg d => 45 :: uint_codes d
  end.

Fixpoint digits_value (acc : N) (s : pystr) : option N :=
  match s with
  | [] => Some acc
  | c :: t =>
    if (48 <=? c) && (c <=? 57) then digits_value (acc * 10 + (c - 48)) t else None
  end.

Definition Z_parse (s : pystr) : option Z :=
  match str_strip s with
  | [] => None
  | 45 :: (_ :: _) as t => (fun n => (- Z.of_N n)%Z) <$> digits_value 0 t
  | t => Z.of_N <$> digits_value 0 t
  end.

Definition Z_scalars : PandasScalars :=
  {| num := Z;
     num_eq_dec := Z.eq_dec;
     num_zero := 0%Z;
     num_add := Z.add;
     num_str := Z_str;
     num_int := fun z => z;
     parse_num := Z_parse;
     num_add_zero_r := Z.add_0_r |}.

(** ** Charts and figures *)

Section Presentation.
Context `{PyText} `{PandasScalars}.

(** [df_f[label].fillna(fill).value_counts().reset_index()]: the count of
    records per value of one column, a missing value counted under [fill]. *)
Definition counts_by (label fill : pystr) (df_f : DataFrame)
  : result (list (cell * nat)) :=
  s ← getitem df_f label;
  Ok (value_counts (map (fillna (Text fill)) s)).

Definition dir_count (df_f : DataFrame) : result (list (cell * nat)) :=
  counts_by (py "Dirección") (py "Sin Dirección") df_f.

Definition top_n : nat := 25.

(** [dir_count.head(top_n)] *)
Definition dir_count_plot (df_f : DataFrame) : result (list (cell * nat)) :=
  dir_count ← dir_count df_f;
  Ok (take top_n dir_count).

(** The title of the first chart. *)
Definition dir_title (df_f : DataFrame) : result pystr :=
  dir_count ← dir_count df_f;
  Ok (if decide (top_n < length dir_count)%nat
      then py "Colaboradores por Dirección (Top 25)"
      else py "Colaboradores por Dirección").

Definition nivel_count (df_f : DataFrame) : result (list (cell * nat)) :=
  counts_by (py "Nivel Salarial") (py "Sin Nivel Salarial") df_f.

Definition plaza_count (df_f : DataFrame) : result (list (cell * nat)) :=
  counts_by (py "Tipo de Plaza") (py "Sin Tipo de Plaza") df_f.

(** The figures "Registros con justificación" and "Registros (detalle)". *)
Definition registros_justificacion (df_f : DataFrame) : result Z :=
  df_j ← justified_rows df_f;
  Ok (Z.of_nat (length (rows df_j))).

Definition registros_detalle (df_f : DataFrame) : Z :=
  Z.of_nat (length (rows df_f)).
End Presentation.

(** ** Vocabulary of the statements *)

Section Vocabulary.
Context `{PyText} `{PandasScalars}.

(** A header whose search key is the key of some alias of the table. *)
Definition matches_alias (c : pystr) : Prop :=
  exists e a, e ∈ aliases /\ a ∈ e.2 /\ norm c = norm a.

(** The entry of the alias table whose loop iteration finds header [c]. *)
Definition selects (cols : list pystr) (m : gmap (list N) (list N)) (c : pystr)
    (e : pystr * list pystr) : Prop :=
  found_original m e.2 = Some c /\ c <> [] /\ c ∈ cols.

#[global] Instance selects_dec cols m c e : Decision (selects cols m c e).
Proof. unfold selects. apply _. Defined.

(** The cell a row holds under a label that selects a Series. *)
Definition label_cell (cols : list pystr) (label : pystr) (r : list cell) : cell :=
  match column_index label cols with
  | Ok i => cell_at i r
  | Raise _ => NaN
  end.

(** One table holds a subsequence of the rows of another, under the same
    columns. *)
Definition row_subsequence (df' df : DataFrame) : Prop :=
  columns df' = columns df /\ rows df' `sublist_of` rows df.

(** A value that, trimmed and upper-cased, is exactly [TOTAL] or [TOTALES]. *)
Definition is_total_text (v : cell) : Prop :=
  str_upper (str_strip (astype_str v)) = py "TOTAL"
  \/ str_upper (str_strip (astype_str v)) = py "TOTALES".

#[global] Instance is_total_text_dec v : Decision (is_total_text v).
Proof. unfold is_total_text. apply _. Defined.

(** The rows the Row Cleaner is to keep. *)
Definition kept_by_cleaner (cols : list pystr) (r : list cell) : Prop :=
  label_cell cols (py "Tipo de Plaza") r <> NaN
  /\ ~ is_total_text (label_cell cols (py "Dirección") r)
  /\ ~ is_total_text (label_cell cols (py "Tipo de Plaza") r)
  /\ ~ is_total_text (label_cell cols (py "Unidad") r)
  /\ ~ is_total_text (label_cell cols (py "Coordinación") r).

#[global] Instance kept_by_cleaner_dec cols r : Decision (kept_by_cleaner cols r).
Proof. unfold kept_by_cleaner. apply _. Defined.

(** Membership of one column's value in its selection; the empty selection
    admits every value. *)
Definition admits (sel : list cell) (v : cell) : Prop :=
  sel = [] \/ v ∈ sel.

#[global] Instance admits_dec sel v : Decision (admits sel v).
Proof. unfold admits. apply _. Defined.

(** The conjunction of the three per-column predicates. *)
Definition selected_by (cols : list pystr) (sel : FilterSelection) (r : list cell)
  : Prop :=
  admits (unidad_sel sel) (label_cell cols (py "Unidad") r)
  /\ admits (coord_sel sel) (label_cell cols (py "Coordinación") r)
  /\ admits (dir_sel sel) (label_cell cols (py "Dirección") r).

#[global] Instance selected_by_dec cols sel r : Decision (selected_by cols sel r).
Proof. unfold selected_by. apply _. Defined.
(** What coercion makes of one cell: text that does not parse as a number
    becomes the missing marker. *)
Definition coerce_value (v : cell) : cell :=
  match v with
  | Text s =>
    match parse_num s with
    | Some x => Number x
    | None => NaN
    end
  | _ => v
  end.

Definition coerced_row (cols : list pystr) (r : list cell) : list cell :=
  match column_index (py "Plazas") cols with
  | Ok i => <[i := coerce_value (cell_at i r)]> r
  | Raise _ => r
  end.

(** Every row has one cell per column. *)
Definition rectangular (df : DataFrame) : Prop :=
  Forall (fun r => length r = length (columns df)) (rows df).

(** A justification that is neither blank nor the text of a null. *)
Definition is_justified (v : cell) : Prop :=
  str_strip (astype_str v) <> []
  /\ str_upper (str_strip (astype_str v)) <> py "NAN"
  /\ str_upper (str_strip (astype_str v)) <> py "NONE".

#[global] Instance is_justified_dec v : Decision (is_justified v).
Proof. unfold is_justified. apply _. Defined.

(** The quantity a row adds to the sum: its number, zero when missing. *)
Definition plazas_value (v : cell) : num :=
  match coerce_value v with
  | Number x => x
  | _ => num_zero
  end.

Definition justified_total (cols : list pystr) (rs : list (list cell)) : num :=
  foldl (fun acc r => num_add acc (plazas_value (label_cell cols (py "Plazas") r)))
        num_zero
        (filter (fun r => is_justified (label_cell cols (py "Justificación") r)) rs).

Definition has_plazas (cols : list pystr) (r : list cell) : Prop :=
  coerce_value (label_cell cols (py "Plazas") r) <> NaN.

#[global] Instance has_plazas_dec cols r : Decision (has_plazas cols r).
Proof. unfold has_plazas. apply _. Defined.
End Vocabulary.

(** ** Further vocabulary *)

(** Text with no white space at either end. *)
Definition no_edge_space (s : pystr) : Prop :=
  (forall c, head s = Some c -> isspace c = false)
  /\ (forall c, last s = Some c -> isspace c = false).

(** The label after the three control characters have become spaces. *)
Definition control_to_space (c : pystr) : pystr :=
  str_replace [TAB] [SP] (str_replace [CR] [SP] (str_replace [LF] [SP] c)).

(** The sum of the counts of a table of counts. *)
Definition total_count {A} (vc : list (A * nat)) : nat :=
  foldr (fun e acc => (e.2 + acc)%nat) 0%nat vc.

(** The grouping columns the Row Cleaner scans for total rows. *)
Definition grouping_columns : list pystr :=
  [ py "Dirección"; py "Tipo de Plaza"; py "Unidad"; py "Coordinación" ].

Section CleanerVocabulary.
Context `{PyText} `{PandasScalars}.

(** The rows the Row Cleaner keeps when only some of the grouping columns
    are present. *)
Definition kept_present (cols : list pystr) (r : list cell) : Prop :=
  label_cell cols (py "Tipo de Plaza") r <> NaN
  /\ Forall (fun col => col ∈ cols -> ~ is_total_text (label_cell cols col r))
            grouping_columns.

#[global] Instance kept_present_dec cols r : Decision (kept_present cols r).
Proof. unfold kept_present. apply _. Defined.
End CleanerVocabulary.

(** What [control_to_space] makes of one character. *)
Definition space_of_control (x : N) : N :=
  if x =? LF then SP else if x =? CR then SP else if x =? TAB then SP else x.

(** ** Sample tables *)

Definition sample_columns : list pystr :=
  [ py "Unidad"; py "Coordinación"; py "Dirección"; py "Tipo de Puesto";
    py "Nivel Salarial"; py "Tipo de Plaza"; py "Justificación"; py "Plazas" ].

Definition num_cell (z : Z) : @cell Z_scalars := @Number Z_scalars z.

Definition sample_row (u c d puesto plaza j : string) (p : @cell Z_scalars)
  : list (@cell Z_scalars) :=
  [ Text (py u); Text (py c); Text (py d); Text (py puesto); Text (py "N1");
    Text (py plaza); Text (py j); p ].

Definition sample_df : @DataFrame Z_scalars :=
  {| columns := sample_columns;
     rows :=
       [ sample_row "UA" "C1" "D1" "Enlace" "Confianza" "alta" (Text (py "3"));
         sample_row "UA" "C1" " total " "Gerente" "Confianza" "alta" (num_cell 9);
         sample_row "UB" "C2" "D2" "Gerente" "Base" "alta" (Text (py "s/d"));
         [ Text (py "UB"); Text (py "C2"); Text (py "D2"); Text (py "Enlace");
           Text (py "N1"); NaN; Text (py "alta"); num_cell 1 ];
         sample_row "UB" "C3" "D3" "Asesor" "Base" " " (num_cell 5);
         sample_row "UC" "C3" "D3" "Enlace" "Base" "alta" (num_cell 4) ] |}.

Definition sample_clean : @DataFrame Z_scalars :=
  {| columns := sample_columns;
     rows :=
       [ sample_row "UA" "C1" "D1" "Enlace" "Confianza" "alta" (Text (py "3"));
         sample_row "UB" "C2" "D2" "Gerente" "Base" "alta" (Text (py "s/d"));
         sample_row "UB" "C3" "D3" "Asesor" "Base" " " (num_cell 5);
         sample_row "UC" "C3" "D3" "Enlace" "Base" "alta" (num_cell 4) ] |}.

(** The scenario of the position-type chart: five [Enlace], three [Gerente],
    two [UnknownRole]. *)
Definition sample_puestos : @DataFrame Z_scalars :=
  {| columns := [py "Tipo de Puesto"];
     rows :=
       map (fun p => [@Text Z_scalars (py p)])
           [ "Enlace"; "Gerente"; "Enlace"; "UnknownRole"; "Enlace"; "Gerente";
             "Enlace"; "UnknownRole"; "Gerente"; "Enlace" ]%string |}.

(** Headers for the alias resolver: one variant of [Tipo de Plaza] among
    unrelated headers; two spellings of [coordinacion] before an unrelated
    header; and the same two spellings before the accented alias. *)
Definition sample_single_pre : list pystr := [py "Folio"].
Definition sample_single_header : pystr := py " TIPO   Plaza".
Definition sample_single_post : list pystr := [py "Observaciones"; py "Fecha de alta"].

Definition sample_twice_pre : list pystr := [py "coordinacion"].
Definition sample_twice_header : pystr := py "COORDINACION".
Definition sample_twice_post : list pystr := [py "Folio"].

Definition sample_overridden : list pystr :=
  [py "coordinacion"; py "COORDINACION"; py "coordinación"].

Definition sample_selection : @FilterSelection Z_scalars :=
  {| unidad_sel := [Text (py "UB"); Text (py "UC")];
     coord_sel := [Text (py "C3")];
     dir_sel := [] |}.

(** A label with a line feed between two words. *)
Definition sample_label : pystr := py " Tipo" ++ [LF] ++ py " de Plaza ".

(** A table that has [Tipo de Plaza] and [Dirección] but neither [Unidad]
    nor [Coordinación]. *)
Definition sample_partial : @DataFrame Z_scalars :=
  {| columns := [py "Tipo de Plaza"; py "Dirección"; py "Plazas"];
     rows :=
       [ [Text (py "Base"); Text (py "D1"); num_cell 2];
         [NaN; Text (py "D1"); num_cell 1];
         [Text (py "Base"); Text (py "Totales "); num_cell 3];
         [Text (py "total"); NaN; num_cell 3];
         [Text (py "Confianza"); NaN; Text (py "4")] ] |}.

(** A raw sheet: headers in several spellings, one with a line feed, one
    with two spaces, and a column the dashboard does not use. *)
Definition sample_raw_columns : list pystr :=
  [ py " unidad"; py "COORDINACION"; py "Dirección" ++ [LF]; py "Tipo Puesto";
    py "nivel_salarial"; py "Tipo  de Plaza"; py "JUSTIFICACIÓN";
    py "No. Plazas"; py "Folio" ].

Definition sample_raw_row (u d plaza : string) (p : @cell Z_scalars)
  : list (@cell Z_scalars) :=
  [ Text (py u); Text (py "C1"); Text (py d); Text (py "Enlace");
    Text (py "N1"); Text (py plaza); Text (py "alta"); p; num_cell 7 ].

Definition sample_raw : @DataFrame Z_scalars :=
  {| columns := sample_raw_columns;
     rows :=
       [ sample_raw_row "UA" "D1" "Base" (Text (py "3"));
         sample_raw_row "UA" "D1" "Base" (Text (py "s/d"));
         sample_raw_row "Total" "D1" "Base" (num_cell 12);
         [ Text (py "UB"); Text (py "C1"); Text (py "D2"); Text (py "Enlace");
           Text (py "N1"); NaN; Text (py "alta"); num_cell 1; num_cell 7 ];
         sample_raw_row "UB" "D2" "Confianza" (num_cell 5) ] |}.

Definition sample_raw_clean : @DataFrame Z_scalars :=
  {| columns := sample_columns ++ [py "Folio"];
     rows :=
       [ sample_raw_row "UA" "D1" "Base" (num_cell 3);
         sample_raw_row "UA" "D1" "Base" NaN;
         sample_raw_row "UB" "D2" "Confianza" (num_cell 5) ] |}.

(** Two headers that the Header Normalizer makes equal. *)
Definition sample_dup : @DataFrame Z_scalars :=
  {| columns := sample_columns ++ [py "Plazas "];
     rows := [ sample_row "UA" "C1" "D1" "Enlace" "Base" "alta" (num_cell 1)
               ++ [num_cell 2] ] |}.

(** Twenty-seven rows, each with a [Dirección] of its own. *)
Definition sample_many : @DataFrame Z_scalars :=
  {| columns := [py "Dirección"];
     rows := map (fun n => [num_cell (Z.of_nat n)]) (seq 1 27) |}.

(** What the coercion of [Plazas] makes of the first sample table, and the
    counts of the charts on the samples. *)
Definition sample_coerced : @DataFrame Z_scalars :=
  {| columns := columns sample_df;
     rows := map (coerced_row (columns sample_df)) (rows sample_df) |}.

Definition sample_plaza_counts : list (@cell Z_scalars * nat) :=
  [ (Text (py "Base"), 3%nat); (Text (py "Confianza"), 2%nat);
    (Text (py "Sin Tipo de Plaza"), 1%nat) ].

Definition sample_many_counts : list (@cell Z_scalars * nat) :=
  value_counts (map (fun n => num_cell (Z.of_nat n)) (seq 1 27)).

Definition sample_puesto_counts : list (@cell Z_scalars * nat) :=
  [ (Text (py "Gerente"), 3%nat); (Text (py "Enlace"), 5%nat);
    (Text (py "UnknownRole"), 2%nat) ].

(** * Properties *)

(** ** Text operations *)

Lemma str_replace_char (c d : N) (s : pystr) :
  str_replace [c] [d] s = map (fun x => if x =? c then d else x) s.
Proof.
  unfold str_replace. induction s as [|a s IH]; simpl; [done|].
  rewrite N.eqb_sym, andb_true_r.
  destruct (a =? c); simpl; by rewrite IH.
Qed.

(** The scan for two spaces, one step at a time. *)
Lemma str_replace_double_cons (a b : N) (t : pystr) :
  str_replace [SP; SP] [SP] (a :: b :: t) =
  if (a =? SP) && (b =? SP)
  then SP :: str_replace [SP; SP] [SP] t
  else a :: str_replace [SP; SP] [SP] (b :: t).
Proof.
  unfold str_replace. cbn [replace_scan startswith length Nat.sub].
  rewrite (N.eqb_sym SP a), (N.eqb_sym SP b), andb_true_r.
  destruct (a =? SP), (b =? SP); reflexivity.
Qed.

Lemma str_replace_double_single (a : N) :
  str_replace [SP; SP] [SP] [a] = [a].
Proof. unfold str_replace. simpl. by rewrite andb_false_r. Qed.

(** Induction over a text two characters at a time, as the scan reads it. *)
Lemma pystr_pair_ind (P : pystr -> Prop) :
  P [] -> (forall a, P [a]) ->
  (forall a b t, P t -> P (b :: t) -> P (a :: b :: t)) ->
  forall s, P s.
Proof.
  intros Hnil Hone Hstep s.
  assert (P s /\ forall a, P (a :: s)) as [Hs _]; [|exact Hs].
  induction s as [|b t [IH1 IH2]]; [by split|].
  split; [apply IH2|]. intros a. by apply Hstep.
Qed.

Lemma str_replace_double_elem (x : N) (s : pystr) :
  x ∈ str_replace [SP; SP] [SP] s -> x ∈ s.
Proof.
  induction s as [|a|a b t IH1 IH2] using pystr_pair_ind.
  - done.
  - by rewrite str_replace_double_single.
  - rewrite str_replace_double_cons.
    destruct ((a =? SP) && (b =? SP)) eqn:E.
    + apply andb_true_iff in E as [Ea%N.eqb_eq Eb%N.eqb_eq]. subst a b.
      intros [->|Hx]%elem_of_cons; [by left|]. right; right. by apply IH1.
    + intros [->|Hx]%elem_of_cons; [by left|]. right. by apply IH2.
Qed.

Lemma str_replace_double_length (s : pystr) :
  (length (str_replace [SP; SP] [SP] s) <= length s)%nat.
Proof.
  induction s as [|a|a b t IH1 IH2] using pystr_pair_ind.
  - done.
  - by rewrite str_replace_double_single.
  - rewrite str_replace_double_cons.
    destruct ((a =? SP) && (b =? SP)); simpl in *; lia.
Qed.

Lemma str_contains_double_cons (a b : N) (t : pystr) :
  str_contains [SP; SP] (a :: b :: t) =
  ((a =? SP) && (b =? SP)) || str_contains [SP; SP] (b :: t).
Proof.
  cbn [str_contains startswith].
  by rewrite (N.eqb_sym SP a), (N.eqb_sym SP b), andb_true_r.
Qed.

(** An iteration of the loop of [norm] that finds two spaces shortens the
    text. *)
Lemma str_replace_double_shrinks (s : pystr) :
  str_contains [SP; SP] s = true ->
  (length (str_replace [SP; SP] [SP] s) < length s)%nat.
Proof.
  induction s as [|a|a b t IH1 IH2] using pystr_pair_ind.
  - done.
  - cbn. by rewrite andb_false_r.
  - rewrite str_contains_double_cons, str_replace_double_cons.
    destruct ((a =? SP) && (b =? SP)); simpl.
    + intros _. pose proof (str_replace_double_length t). lia.
    + intros Hc. specialize (IH2 Hc). simpl in IH2. lia.
Qed.

Lemma collapse_loop_done (fuel : nat) (s : pystr) :
  (length s <= fuel)%nat ->
  str_contains [SP; SP] (collapse_loop fuel s) = false.
Proof.
  revert s. induction fuel as [|fuel IH]; intros s Hlen; simpl.
  - destruct s; [done | simpl in Hlen; lia].
  - destruct (str_contains [SP; SP] s) eqn:Hc; [|done].
    apply IH. pose proof (str_replace_double_shrinks s Hc). lia.
Qed.

(** The loop of [norm] ends within its fuel: no two adjacent spaces are left. *)
Lemma collapse_spaces_done (s : pystr) :
  str_contains [SP; SP] (collapse_spaces s) = false.
Proof. by apply collapse_loop_done. Qed.

Lemma lstrip_suffix (s : pystr) : lstrip s `suffix_of` s.
Proof.
  induction s as [|c t IH]; simpl; [done|].
  destruct (isspace c); [by apply suffix_cons_r | done].
Qed.

Lemma str_strip_elem (x : N) (s : pystr) : x ∈ str_strip s -> x ∈ s.
Proof.
  unfold str_strip, rstrip. rewrite elem_of_reverse. intros Hx.
  eapply elem_of_suffix in Hx; [|apply lstrip_suffix].
  rewrite elem_of_reverse in Hx.
  eapply elem_of_suffix; [exact Hx | apply lstrip_suffix].
Qed.

(** ** Header Normalizer *)

(** No line feed, carriage return or tab is left in a normalised label. *)
Lemma normalize_label_no_control (c : pystr) :
  (LF ∉ normalize_label c) /\ (CR ∉ normalize_label c) /\ (TAB ∉ normalize_label c).
Proof.
  assert (forall x, x ∈ normalize_label c -> x <> LF /\ x <> CR /\ x <> TAB) as Hall.
  { intros x Hx. unfold normalize_label in Hx.
    apply str_strip_elem, str_replace_double_elem in Hx.
    rewrite !str_replace_char in Hx.
    apply list_elem_of_fmap in Hx as (x2 & -> & Hx).
    apply list_elem_of_fmap in Hx as (x1 & -> & Hx).
    apply list_elem_of_fmap in Hx as (x0 & -> & _).
    unfold LF, CR, TAB, SP.
    destruct (x0 =? 10) eqn:E0; simpl.
    - repeat split; discriminate.
    - destruct (x0 =? 13) eqn:E1; simpl.
      + repeat split; discriminate.
      + destruct (x0 =? 9) eqn:E2; simpl.
        * repeat split; discriminate.
        * apply N.eqb_neq in E0, E1, E2. done. }
  repeat split; intros Hx; apply Hall in Hx; destruct Hx as (? & ? & ?); congruence.
Qed.

(** C1, at the label [a   b] (three spaces): the one pass of
    [.str.replace("  ", " ")] in [normalize_columns] turns the run of three
    spaces into a run of two, so the normalised label still contains two
    consecutive spaces. *)
Theorem normalize_columns_leaves_double_space :
  normalize_labels [py "a   b"] = [py "a  b"]
  /\ str_contains [SP; SP] (normalize_label (py "a   b")) = true.
Proof. split; vm_compute; reflexivity. Qed.

(** C2, at the label [a   b] (three spaces): a second normalisation changes
    the result of the first, [a  b], into [a b]. *)
Theorem normalize_columns_twice_differs :
  normalize_labels [py "a   b"] = [py "a  b"]
  /\ normalize_labels (normalize_labels [py "a   b"]) = [py "a b"]
  /\ normalize_labels (normalize_labels [py "a   b"]) <> normalize_labels [py "a   b"].
Proof. split; [|split]; vm_compute; first [reflexivity | discriminate]. Qed.

(** ** Tables: selecting a column, masking rows *)

Lemma label_positions_absent (label : pystr) (cols : list pystr) (k : nat) :
  label ∉ cols -> label_positions label k cols = [].
Proof.
  revert k. induction cols as [|c t IH]; intros k Hn; simpl; [done|].
  apply not_elem_of_cons in Hn as [Hne Hn].
  destruct (decide (c = label)); [congruence|]. by apply IH.
Qed.

Lemma label_positions_NoDup (label : pystr) (cols : list pystr) (k : nat) :
  NoDup cols -> label ∈ cols -> exists i, label_positions label k cols = [i].
Proof.
  intros Hnd. revert k. induction Hnd as [|c t Hc Hnd IH]; intros k Hin.
  - by apply elem_of_nil in Hin.
  - simpl. destruct (decide (c = label)) as [->|Hne].
    + exists k. by rewrite (label_positions_absent _ _ _ Hc).
    + apply elem_of_cons in Hin as [Heq|Hin]; [congruence|]. by apply IH.
Qed.

(** A label that occurs once selects a Series. *)
Lemma column_index_NoDup (label : pystr) (cols : list pystr) :
  NoDup cols -> label ∈ cols -> exists i, column_index label cols = Ok i.
Proof.
  intros Hnd Hin. unfold column_index.
  destruct (label_positions_NoDup label cols 0 Hnd Hin) as [i ->]. by exists i.
Qed.

Lemma mask_rows_map {A} (f : A -> bool) (rs : list A) :
  mask_rows (map f rs) rs = filter (fun r => f r) rs.
Proof.
  induction rs as [|r rs IH]; simpl; [done|].
  rewrite filter_cons, <- IH. by destruct (f r).
Qed.

Lemma mask_rows_sublist {A} (mask : list bool) (rs : list A) :
  mask_rows mask rs `sublist_of` rs.
Proof.
  revert mask. induction rs as [|r rs IH]; intros [|b mask]; simpl;
    try apply sublist_nil_l.
  destruct b; [by apply sublist_skip | by apply sublist_cons].
Qed.

Section TableFacts.
Context `{PyText} `{PandasScalars}.

Lemma row_subsequence_refl (df : DataFrame) : row_subsequence df df.
Proof. by split. Qed.

Lemma row_subsequence_trans (df1 df2 df3 : DataFrame) :
  row_subsequence df1 df2 -> row_subsequence df2 df3 -> row_subsequence df1 df3.
Proof.
  intros [Hc1 Hr1] [Hc2 Hr2]. split; [congruence|]. by etrans.
Qed.

Lemma loc_mask_subsequence (df : DataFrame) (mask : list bool) :
  row_subsequence (loc_mask df mask) df.
Proof. split; [done|]. apply mask_rows_sublist. Qed.

Lemma getitem_index (df : DataFrame) (label : pystr) (i : nat) :
  column_index label (columns df) = Ok i ->
  getitem df label = Ok (map (cell_at i) (rows df)).
Proof. intros Hi. unfold getitem. by rewrite Hi. Qed.

(** ** Schema Validator *)

Lemma missing_columns_difference (df : DataFrame) :
  missing_columns df = list_difference required (columns df).
Proof.
  unfold missing_columns. induction required as [|c t IH]; simpl; [done|].
  rewrite filter_cons, IH. unfold decide_rel, decide, not_dec.
  by destruct (list_elem_of_dec c (columns df)).
Qed.

Lemma ensure_required_ok (df : DataFrame) :
  ensure_required df = Ok tt -> forall c, c ∈ required -> c ∈ columns df.
Proof.
  unfold ensure_required. intros Hok c Hc.
  destruct (missing_columns df) as [|m ms] eqn:Hm; [|done].
  destruct (decide (c ∈ columns df)) as [|Hn]; [done|].
  assert (c ∈ missing_columns df) as Hin.
  { unfold missing_columns. by apply list_elem_of_filter. }
  rewrite Hm in Hin. by apply elem_of_nil in Hin.
Qed.

(** C3: the validator stops the script exactly when the set difference of
    the required fields against the columns is not empty; it then shows
    that difference and the list of the columns present, and the pipeline
    ends there, whatever the rows hold; when the difference is empty the
    validator returns and the pipeline goes on, with the same table, to the
    row cleaner. *)
Theorem ensure_required_gate (df0 : DataFrame) :
  let df := apply_aliases (normalize_columns df0) in
  let missing := list_difference required (columns df) in
  let shown := [ UiError missing;
                 UiWrite (py "Columnas detectadas en tu archivo:");
                 UiWriteList (columns df) ] in
  (forall c, c ∈ missing <-> c ∈ required /\ c ∉ columns df)
  /\ ensure_required df =
     (if decide (missing = []) then Ok tt else Raise (StopScript shown))
  /\ pipeline df0 =
     (if decide (missing = [])
      then coerce_plazas_numeric df ≫= drop_total_like_rows
      else Raise (StopScript shown)).
Proof.
  intros df missing shown.
  assert (ensure_required df =
          if decide (missing = []) then Ok tt else Raise (StopScript shown)) as He.
  { subst shown missing. unfold ensure_required.
    rewrite missing_columns_difference.
    destruct (list_difference required (columns df)); by case_decide. }
  split; [|split].
  - intros c. subst missing. apply list_elem_of_difference.
  - exact He.
  - unfold pipeline. fold df. rewrite He.
    case_decide; reflexivity.
Qed.
End TableFacts.

Section RowOperations.
Context `{PyText} `{PandasScalars}.

Lemma column_index_elem (label : pystr) (cols : list pystr) (i : nat) :
  column_index label cols = Ok i -> label ∈ cols.
Proof.
  unfold column_index. intros Hi.
  destruct (decide (label ∈ cols)) as [|Hn]; [done|].
  by rewrite (label_positions_absent _ _ _ Hn) in Hi.
Qed.

Lemma label_cell_index (cols : list pystr) (label : pystr) (i : nat) (r : list cell) :
  column_index label cols = Ok i -> label_cell cols label r = cell_at i r.
Proof. intros Hi. unfold label_cell. by rewrite Hi. Qed.

Lemma validated_index (df : DataFrame) (label : pystr) :
  ensure_required df = Ok tt -> NoDup (columns df) -> label ∈ required ->
  exists i, column_index label (columns df) = Ok i.
Proof.
  intros Hok Hnd Hl. apply column_index_NoDup; [done|].
  by apply (ensure_required_ok df Hok).
Qed.

(** *** Row Cleaner *)

Lemma drop_total_step_index (df : DataFrame) (col : pystr) (i : nat) :
  column_index col (columns df) = Ok i ->
  drop_total_step df col =
  Ok {| columns := columns df;
        rows := filter (fun r => ~ is_total_text (cell_at i r)) (rows df) |}.
Proof.
  intros Hi. unfold drop_total_step.
  rewrite bool_decide_eq_true_2 by (by eapply column_index_elem).
  rewrite (getitem_index _ _ _ Hi). cbn [mbind result_bind].
  unfold loc_mask, safe_text_series. f_equal. f_equal.
  rewrite !List.map_map, mask_rows_map.
  apply list_filter_iff. intros r. unfold is_total_text, isin_text.
  rewrite negb_True, bool_decide_spec.
  rewrite !elem_of_cons, elem_of_nil. tauto.
Qed.

Lemma drop_total_like_rows_index (df : DataFrame) (it id iu ic : nat) :
  column_index (py "Tipo de Plaza") (columns df) = Ok it ->
  column_index (py "Dirección") (columns df) = Ok id ->
  column_index (py "Unidad") (columns df) = Ok iu ->
  column_index (py "Coordinación") (columns df) = Ok ic ->
  drop_total_like_rows df =
  Ok {| columns := columns df;
        rows := filter (kept_by_cleaner (columns df)) (rows df) |}.
Proof.
  intros Ht Hd Hu Hc. unfold drop_total_like_rows.
  rewrite (getitem_index _ _ _ Ht). cbn [mbind result_bind foldM_result].
  unfold loc_mask. rewrite List.map_map, mask_rows_map.
  rewrite (drop_total_step_index _ _ id) by exact Hd. cbn [mbind result_bind columns rows].
  rewrite (drop_total_step_index _ _ it) by exact Ht. cbn [mbind result_bind columns rows].
  rewrite (drop_total_step_index _ _ iu) by exact Hu. cbn [mbind result_bind columns rows].
  rewrite (drop_total_step_index _ _ ic) by exact Hc. cbn [mbind result_bind columns rows].
  f_equal. f_equal. rewrite !list_filter_filter.
  apply list_filter_iff. intros r. unfold kept_by_cleaner.
  rewrite (label_cell_index _ _ _ r Ht), (label_cell_index _ _ _ r Hd),
    (label_cell_index _ _ _ r Hu), (label_cell_index _ _ _ r Hc).
  destruct (cell_at it r); simpl; intuition congruence.
Qed.

(** C4: on a validated table whose labels are distinct the Row Cleaner
    returns the table of exactly those rows, in their order, in which
    [Tipo de Plaza] is not null and none of [Dirección], [Tipo de Plaza],
    [Unidad], [Coordinación] holds a value that, trimmed and upper-cased, is
    [TOTAL] or [TOTALES]. *)
Theorem drop_total_like_rows_spec (df : DataFrame) :
  ensure_required df = Ok tt ->
  NoDup (columns df) ->
  drop_total_like_rows df =
  Ok {| columns := columns df;
        rows := filter (kept_by_cleaner (columns df)) (rows df) |}.
Proof.
  intros Hok Hnd.
  destruct (validated_index df (py "Tipo de Plaza") Hok Hnd) as [it Ht];
    [vm_compute; set_solver|].
  destruct (validated_index df (py "Dirección") Hok Hnd) as [id Hd];
    [vm_compute; set_solver|].
  destruct (validated_index df (py "Unidad") Hok Hnd) as [iu Hu];
    [vm_compute; set_solver|].
  destruct (validated_index df (py "Coordinación") Hok Hnd) as [ic Hc];
    [vm_compute; set_solver|].
  by eapply drop_total_like_rows_index.
Qed.

(** *** Filter Engine *)

Lemma filter_all {A} (P : A -> Prop) `{!forall x, Decision (P x)} (l : list A) :
  (forall x, P x) -> filter P l = l.
Proof.
  intros HP. induction l as [|x l IH]; [done|].
  by rewrite filter_cons_True, IH.
Qed.

Lemma restrict_index (label : pystr) (sel : list cell) (df : DataFrame) (i : nat) :
  column_index label (columns df) = Ok i ->
  restrict label sel df =
  Ok {| columns := columns df;
        rows := filter (fun r => admits sel (cell_at i r)) (rows df) |}.
Proof.
  intros Hi. unfold restrict. destruct sel as [|v sel].
  - rewrite filter_all by (intros r; by left). by destruct df.
  - rewrite (getitem_index _ _ _ Hi). cbn [mbind result_bind].
    unfold loc_mask. rewrite List.map_map, mask_rows_map.
    f_equal. f_equal. apply list_filter_iff. intros r.
    unfold isin, admits. rewrite bool_decide_spec.
    split; [by right | by intros [?|?]].
Qed.

Lemma filter_block_index (df : DataFrame) (sel : FilterSelection) (iu ic id : nat) :
  column_index (py "Unidad") (columns df) = Ok iu ->
  column_index (py "Coordinación") (columns df) = Ok ic ->
  column_index (py "Dirección") (columns df) = Ok id ->
  filter_block df sel =
  Ok {| columns := columns df;
        rows := filter (selected_by (columns df) sel) (rows df) |}.
Proof.
  intros Hu Hc Hd. unfold filter_block.
  rewrite (restrict_index _ _ _ iu) by exact Hu. cbn [mbind result_bind].
  rewrite (restrict_index _ _ _ ic) by exact Hc. cbn [mbind result_bind columns rows].
  rewrite (restrict_index _ _ _ id) by exact Hd. cbn [columns rows].
  f_equal. f_equal. rewrite !list_filter_filter.
  apply list_filter_iff. intros r. unfold selected_by.
  rewrite (label_cell_index _ _ _ r Hu), (label_cell_index _ _ _ r Hc),
    (label_cell_index _ _ _ r Hd). tauto.
Qed.

(** C7: on a validated table whose labels are distinct the filter block
    returns, without error, exactly the rows that satisfy the conjunction of
    the three per-column membership predicates, an empty selection admitting
    every value; so the all-empty selection gives back the table itself, a
    row is in the result exactly when it is a row of the table matched in
    every column, and a column whose non-empty selection holds no value of
    the data gives a table of no rows. *)
Theorem filter_block_spec (df : DataFrame) (sel : FilterSelection) :
  ensure_required df = Ok tt ->
  NoDup (columns df) ->
  filter_block df sel =
    Ok {| columns := columns df;
          rows := filter (selected_by (columns df) sel) (rows df) |}
  /\ filter_block df {| unidad_sel := []; coord_sel := []; dir_sel := [] |} = Ok df
  /\ (forall r,
        r ∈ filter (selected_by (columns df) sel) (rows df) <->
        r ∈ rows df
        /\ admits (unidad_sel sel) (label_cell (columns df) (py "Unidad") r)
        /\ admits (coord_sel sel) (label_cell (columns df) (py "Coordinación") r)
        /\ admits (dir_sel sel) (label_cell (columns df) (py "Dirección") r))
  /\ (forall label vals,
        (label, vals) ∈ [ (py "Unidad", unidad_sel sel);
                          (py "Coordinación", coord_sel sel);
                          (py "Dirección", dir_sel sel) ] ->
        vals <> [] ->
        (forall r, r ∈ rows df -> label_cell (columns df) label r ∉ vals) ->
        filter_block df sel = Ok {| columns := columns df; rows := [] |}).
Proof.
  intros Hok Hnd.
  destruct (validated_index df (py "Unidad") Hok Hnd) as [iu Hu];
    [vm_compute; set_solver|].
  destruct (validated_index df (py "Coordinación") Hok Hnd) as [ic Hc];
    [vm_compute; set_solver|].
  destruct (validated_index df (py "Dirección") Hok Hnd) as [id Hd];
    [vm_compute; set_solver|].
  pose proof (filter_block_index df sel iu ic id Hu Hc Hd) as Hmain.
  split; [exact Hmain|]. split; [by destruct df|]. split.
  - intros r. rewrite list_elem_of_filter. unfold selected_by. tauto.
  - intros label vals Hin Hne Habs. rewrite Hmain. f_equal. f_equal.
    apply elem_of_nil_inv. intros r [Hsel Hr]%list_elem_of_filter.
    specialize (Habs r Hr). destruct Hsel as (Hsu & Hsc & Hsd).
    rewrite !elem_of_cons, elem_of_nil in Hin.
    destruct Hin as [Heq|[Heq|[Heq|[]]]]; injection Heq as -> ->;
      [destruct Hsu | destruct Hsc | destruct Hsd]; done.
Qed.

(** *** Subsequences *)

Lemma drop_total_step_subsequence (df df' : DataFrame) (col : pystr) :
  drop_total_step df col = Ok df' -> row_subsequence df' df.
Proof.
  unfold drop_total_step. case_bool_decide.
  - destruct (getitem df col) as [s|e]; cbn [mbind result_bind]; [|done].
    intros [= <-]. apply loc_mask_subsequence.
  - intros [= <-]. apply row_subsequence_refl.
Qed.

Lemma foldM_subsequence (cols : list pystr) (df df' : DataFrame) :
  foldM_result drop_total_step df cols = Ok df' -> row_subsequence df' df.
Proof.
  revert df. induction cols as [|c cols IH]; intros df; simpl.
  - intros [= <-]. apply row_subsequence_refl.
  - destruct (drop_total_step df c) as [df1|e] eqn:Hs; cbn [mbind result_bind]; [|done].
    intros Hf. eapply row_subsequence_trans; [by apply IH|].
    by eapply drop_total_step_subsequence.
Qed.

Lemma drop_total_like_rows_subsequence (df df' : DataFrame) :
  drop_total_like_rows df = Ok df' -> row_subsequence df' df.
Proof.
  unfold drop_total_like_rows.
  destruct (getitem df (py "Tipo de Plaza")) as [s|e]; cbn [mbind result_bind]; [|done].
  intros Hf. eapply row_subsequence_trans; [by eapply foldM_subsequence|].
  apply loc_mask_subsequence.
Qed.

Lemma restrict_subsequence (label : pystr) (vals : list cell) (df df' : DataFrame) :
  restrict label vals df = Ok df' -> row_subsequence df' df.
Proof.
  unfold restrict. destruct vals as [|v vals].
  - intros [= <-]. apply row_subsequence_refl.
  - destruct (getitem df label) as [s|e]; cbn [mbind result_bind]; [|done].
    intros [= <-]. apply loc_mask_subsequence.
Qed.

Lemma filter_block_subsequence (df df' : DataFrame) (sel : FilterSelection) :
  filter_block df sel = Ok df' -> row_subsequence df' df.
Proof.
  unfold filter_block.
  destruct (restrict (py "Unidad") (unidad_sel sel) df) as [df1|e] eqn:H1;
    cbn [mbind result_bind]; [|done].
  destruct (restrict (py "Coordinación") (coord_sel sel) df1) as [df2|e] eqn:H2;
    cbn [mbind result_bind]; [|done].
  intros H3.
  eapply row_subsequence_trans; [by eapply restrict_subsequence|].
  eapply row_subsequence_trans; by eapply restrict_subsequence.
Qed.

(** C10: whatever the table and the selection, a table returned by the Row
    Cleaner, by one filter restriction or by the whole filter block has the
    columns of its input and, as rows, a subsequence of the rows of its
    input: the surviving rows themselves, in their order, none repeated. *)
Theorem row_dropping_subsequence (df df' : DataFrame) :
  drop_total_like_rows df = Ok df'
  \/ (exists label vals, restrict label vals df = Ok df')
  \/ (exists sel, filter_block df sel = Ok df') ->
  row_subsequence df' df.
Proof.
  intros [Hd|[(label & vals & Hr)|(sel & Hf)]].
  - by apply drop_total_like_rows_subsequence.
  - by eapply restrict_subsequence.
  - by eapply filter_block_subsequence.
Qed.
End RowOperations.

Section Quantities.
Context `{PyText} `{PandasScalars}.

Lemma label_positions_spec (label : pystr) (cols : list pystr) (k i : nat) :
  i ∈ label_positions label k cols ->
  (k <= i)%nat /\ cols !! (i - k)%nat = Some label.
Proof.
  revert k. induction cols as [|c t IH]; intros k; simpl.
  - by intros ?%elem_of_nil.
  - assert (i ∈ label_positions label (S k) t ->
            (k <= i)%nat /\ (c :: t) !! (i - k)%nat = Some label) as Htail.
    { intros [Hle Hl]%IH. split; [lia|].
      by replace (i - k)%nat with (S (i - S k)) by lia. }
    destruct (decide (c = label)) as [->|Hne]; [|done].
    intros [->|Hin]%elem_of_cons; [|by apply Htail].
    split; [lia|]. by replace (k - k)%nat with 0%nat by lia.
Qed.

Lemma column_index_lookup (label : pystr) (cols : list pystr) (i : nat) :
  column_index label cols = Ok i -> cols !! i = Some label.
Proof.
  unfold column_index. intros Hi.
  destruct (label_positions label 0 cols) as [|i' [|? ?]] eqn:Hp; try done.
  injection Hi as ->.
  destruct (label_positions_spec label cols 0 i) as [_ Hl].
  { rewrite Hp. by left. }
  by replace (i - 0)%nat with i in Hl by lia.
Qed.

Lemma cell_at_insert_eq (i : nat) (v : cell) (r : list cell) :
  (i < length r)%nat -> cell_at i (<[i := v]> r) = v.
Proof.
  intros Hi. unfold cell_at. rewrite nth_lookup.
  by rewrite list_lookup_insert_eq.
Qed.

Lemma cell_at_insert_ne (i j : nat) (v : cell) (r : list cell) :
  i <> j -> cell_at j (<[i := v]> r) = cell_at j r.
Proof.
  intros Hne. unfold cell_at. rewrite !nth_lookup.
  by rewrite list_lookup_insert_ne.
Qed.

(** With [errors="coerce"] the conversion returns for every column. *)
Lemma to_numeric_coerce (s : list cell) :
  to_numeric errors_coerce s = Ok (map coerce_value s).
Proof.
  unfold to_numeric. induction s as [|v s IH]; simpl; [done|].
  rewrite IH. destruct v as [|t|x]; simpl; try done.
  by destruct (parse_num t).
Qed.

Lemma set_column_map (i : nat) (f : list cell -> cell) (rs : list (list cell)) :
  set_column i (map f rs) rs = map (fun r => <[i := f r]> r) rs.
Proof. induction rs as [|r rs IH]; simpl; [done|]. by rewrite IH. Qed.

Lemma coerce_plazas_numeric_index (df : DataFrame) (i : nat) :
  column_index (py "Plazas") (columns df) = Ok i ->
  coerce_plazas_numeric df =
  Ok {| columns := columns df; rows := map (coerced_row (columns df)) (rows df) |}.
Proof.
  intros Hi. unfold coerce_plazas_numeric. rewrite Hi. cbn [mbind result_bind].
  rewrite to_numeric_coerce. cbn [mbind result_bind].
  rewrite List.map_map, set_column_map. f_equal. f_equal.
  apply map_ext. intros r. unfold coerced_row. by rewrite Hi.
Qed.

Lemma series_sum_filled (acc : num) (s : list cell) :
  series_sum acc (map (fillna (Number num_zero)) (map coerce_value s)) =
  Ok (foldl (fun a v => num_add a (plazas_value v)) acc s).
Proof.
  revert acc. induction s as [|v s IH]; intros acc; simpl; [done|].
  unfold plazas_value at 2.
  destruct (coerce_value v) as [|t|x] eqn:Hv; simpl.
  - apply IH.
  - destruct v as [|u|y]; simpl in Hv; try done. by destruct (parse_num u).
  - apply IH.
Qed.

Lemma mask_rows_map_both {A B} (f : A -> bool) (g : A -> B) (rs : list A) :
  mask_rows (map f rs) (map g rs) = map g (filter (fun r => f r) rs).
Proof.
  induction rs as [|r rs IH]; simpl; [done|].
  rewrite filter_cons, IH. by destruct (f r).
Qed.

Lemma filter_ext_Forall {A} (R P Q : A -> Prop)
    `{!forall x, Decision (P x)} `{!forall x, Decision (Q x)} (l : list A) :
  Forall R l -> (forall x, R x -> P x <-> Q x) -> filter P l = filter Q l.
Proof.
  intros Hl Hext. induction Hl as [|x l Hx Hl IH]; [done|].
  rewrite !filter_cons, IH.
  destruct (decide (P x)) as [HP|HP], (decide (Q x)) as [HQ|HQ];
    try done; by apply Hext in Hx; tauto.
Qed.

Lemma foldl_map {A B C} (f : A -> B -> A) (g : C -> B) (a : A) (l : list C) :
  foldl f a (map g l) = foldl (fun acc x => f acc (g x)) a l.
Proof. revert a. induction l as [|x l IH]; intros a; simpl; [done|]. apply IH. Qed.

Lemma foldl_ext_fun {A B} (f g : A -> B -> A) (a : A) (l : list B) :
  (forall acc x, f acc x = g acc x) -> foldl f a l = foldl g a l.
Proof.
  intros Hfg. revert a. induction l as [|x l IH]; intros a; simpl; [done|].
  by rewrite Hfg, IH.
Qed.

(** The rows of [df_j]: the justified rows of the view, their justification
    as text. *)
Lemma justified_rows_index (df : DataFrame) (j : nat) :
  column_index (py "Justificación") (columns df) = Ok j ->
  rectangular df ->
  justified_rows df =
  Ok {| columns := columns df;
        rows := map (fun r => <[j := Text (astype_str (cell_at j r))]> r)
                    (filter (fun r => is_justified (cell_at j r)) (rows df)) |}.
Proof.
  intros Hj Hrect. unfold justified_rows. rewrite Hj. cbn [mbind result_bind].
  rewrite set_column_map.
  set (upd := fun r : list cell => <[j := Text (astype_str (cell_at j r))]> r).
  unfold getitem, loc_mask. cbn [columns rows]. rewrite Hj. cbn [mbind result_bind].
  rewrite !List.map_map, mask_rows_map_both. cbn [columns rows].
  unfold safe_text_series.
  rewrite !List.map_map, mask_rows_map_both. cbn [columns rows].
  rewrite !List.map_map, mask_rows_map_both.
  f_equal. f_equal. f_equal. rewrite !list_filter_filter.
  assert (j < length (columns df))%nat as Hlt.
  { eapply lookup_lt_Some. by apply column_index_lookup. }
  eapply filter_ext_Forall; [exact Hrect|]. intros r Hr. cbn beta in Hr.
  unfold upd. rewrite cell_at_insert_eq by lia. cbn [astype_str notna].
  unfold is_justified, isin_text.
  rewrite !negb_True, !bool_decide_spec, !elem_of_cons, elem_of_nil.
  cbn [Is_true]. intuition.
Qed.

Lemma plazas_suma_index (df : DataFrame) (i j : nat) :
  column_index (py "Plazas") (columns df) = Ok i ->
  column_index (py "Justificación") (columns df) = Ok j ->
  rectangular df ->
  plazas_suma df = Ok (num_int (justified_total (columns df) (rows df))).
Proof.
  intros Hi Hj Hrect. unfold plazas_suma.
  rewrite (justified_rows_index df j Hj Hrect). cbn [mbind result_bind].
  unfold getitem. cbn [columns rows]. rewrite Hi. cbn [mbind result_bind].
  rewrite to_numeric_coerce. cbn [mbind result_bind].
  rewrite series_sum_filled. cbn [mbind result_bind].
  f_equal. f_equal. rewrite !foldl_map. unfold justified_total.
  assert (i <> j) as Hij.
  { intros ->. apply column_index_lookup in Hi, Hj.
    rewrite Hi in Hj. vm_compute in Hj. discriminate. }
  rewrite (list_filter_iff
             (fun r => is_justified (label_cell (columns df) (py "Justificación") r))
             (fun r => is_justified (cell_at j r)))
    by (intros r; by rewrite (label_cell_index _ _ _ r Hj)).
  apply foldl_ext_fun. intros acc r.
  rewrite cell_at_insert_ne by done.
  by rewrite (label_cell_index _ _ _ r Hi).
Qed.

(** Rows without a quantity add nothing to the total. *)
Lemma justified_total_has_plazas (cols : list pystr) (rs : list (list cell)) :
  justified_total cols (filter (has_plazas cols) rs) = justified_total cols rs.
Proof.
  unfold justified_total. generalize num_zero as acc.
  induction rs as [|r rs IH]; intros acc; [done|].
  rewrite (filter_cons (has_plazas cols)).
  destruct (decide (has_plazas cols r)) as [Hp|Hp].
  - rewrite !filter_cons.
    destruct (decide (is_justified _)); simpl; apply IH.
  - rewrite filter_cons.
    destruct (decide (is_justified _)); simpl; [|apply IH].
    rewrite IH. f_equal. unfold plazas_value.
    unfold has_plazas in Hp. apply dec_stable in Hp. rewrite Hp.
    by rewrite num_add_zero_r.
Qed.

Lemma rectangular_filter (df : DataFrame) (P : list cell -> Prop)
    `{!forall r, Decision (P r)} :
  rectangular df ->
  rectangular {| columns := columns df; rows := filter P (rows df) |}.
Proof.
  unfold rectangular. cbn [columns rows]. intros Hr.
  apply Forall_forall. intros r [_ Hin]%list_elem_of_filter.
  by apply (proj1 (Forall_forall _ _) Hr).
Qed.

(** C5: on a validated, rectangular table whose labels are distinct the
    coercion of [Plazas] returns a table (it never raises): each row with
    its quantity coerced, text that does not parse as a number replaced by
    the missing marker; the sum shown in the second tab returns too, counts
    a missing quantity as zero, and is the same with and without the rows
    whose quantity is missing. *)
Theorem coerce_plazas_never_raises (df : DataFrame) :
  ensure_required df = Ok tt ->
  NoDup (columns df) ->
  rectangular df ->
  coerce_plazas_numeric df =
    Ok {| columns := columns df; rows := map (coerced_row (columns df)) (rows df) |}
  /\ (forall r t,
        r ∈ rows df ->
        label_cell (columns df) (py "Plazas") r = Text t ->
        parse_num t = None ->
        label_cell (columns df) (py "Plazas") (coerced_row (columns df) r) = NaN)
  /\ plazas_suma df = Ok (num_int (justified_total (columns df) (rows df)))
  /\ plazas_suma {| columns := columns df;
                    rows := filter (has_plazas (columns df)) (rows df) |}
     = plazas_suma df.
Proof.
  intros Hok Hnd Hrect.
  destruct (validated_index df (py "Plazas") Hok Hnd) as [i Hi];
    [vm_compute; set_solver|].
  destruct (validated_index df (py "Justificación") Hok Hnd) as [j Hj];
    [vm_compute; set_solver|].
  split; [by eapply coerce_plazas_numeric_index|]. split; [|split].
  - intros r t Hr Hcell Hparse.
    unfold coerced_row. rewrite Hi.
    rewrite (label_cell_index _ _ _ _ Hi) in Hcell.
    rewrite (label_cell_index _ _ _ _ Hi).
    rewrite cell_at_insert_eq.
    + rewrite Hcell. simpl. by rewrite Hparse.
    + rewrite (proj1 (Forall_forall _ _) Hrect r Hr).
      eapply lookup_lt_Some. by apply column_index_lookup.
  - by eapply plazas_suma_index.
  - rewrite (plazas_suma_index df i j Hi Hj Hrect).
    rewrite (plazas_suma_index _ i j); cbn [columns rows]; try done.
    + by rewrite justified_total_has_plazas.
    + by apply rectangular_filter.
Qed.
End Quantities.

Section PositionTypes.
Context `{PandasScalars}.

#[local] Instance by_count_desc_trans : Transitive by_count_desc.
Proof. intros a b c. unfold by_count_desc. lia. Qed.

#[local] Instance by_count_desc_total : Total by_count_desc.
Proof. intros a b. unfold by_count_desc. lia. Qed.

Lemma unique_elem (v : cell) (s : list cell) : v ∈ unique s <-> v ∈ s.
Proof.
  induction s as [|w s IH]; simpl; [done|].
  rewrite !elem_of_cons, list_elem_of_filter, IH.
  destruct (decide (v = w)); tauto.
Qed.

Lemma unique_NoDup (s : list cell) : NoDup (unique s).
Proof.
  induction s as [|w s IH]; simpl; [constructor|].
  apply NoDup_cons. split; [|by apply NoDup_filter].
  rewrite list_elem_of_filter. tauto.
Qed.

Lemma value_counts_Permutation (s : list cell) :
  value_counts s ≡ₚ map (fun v => (v, count_of v s)) (unique s).
Proof. apply merge_sort_Permutation. Qed.

Lemma value_counts_elem (e : cell * nat) (s : list cell) :
  e ∈ value_counts s <-> e.1 ∈ s /\ e.2 = count_of e.1 s.
Proof.
  rewrite value_counts_Permutation, list_elem_of_fmap. split.
  - intros (v & -> & Hv). rewrite unique_elem in Hv. split; [exact Hv | reflexivity].
  - intros [Hv Hn]. exists e.1. rewrite unique_elem.
    split; [|done]. destruct e as [v n]. simpl in *. by subst.
Qed.

Lemma value_counts_NoDup (s : list cell) : NoDup (map fst (value_counts s)).
Proof.
  change (NoDup (fst <$> value_counts s)).
  rewrite value_counts_Permutation.
  change (NoDup (map fst (map (fun v => (v, count_of v s)) (unique s)))).
  rewrite List.map_map. simpl. rewrite List.map_id. apply unique_NoDup.
Qed.

Lemma value_counts_sorted (s : list cell) :
  StronglySorted by_count_desc (value_counts s).
Proof. apply StronglySorted_merge_sort; apply _. Qed.

Lemma count_lookup_Some (v : cell) (n : nat) (vc : list (cell * nat)) :
  count_lookup v vc = Some n -> (v, n) ∈ vc.
Proof.
  induction vc as [|[w m] vc IH]; simpl; [done|].
  destruct (decide (w = v)) as [->|Hne].
  - intros [= ->]. by left.
  - intros Hl. right. by apply IH.
Qed.

Lemma count_lookup_None (v : cell) (vc : list (cell * nat)) :
  count_lookup v vc = None -> v ∉ map fst vc.
Proof.
  induction vc as [|[w m] vc IH]; simpl; [intros _; apply not_elem_of_nil|].
  destruct (decide (w = v)) as [->|Hne]; [done|].
  intros Hl. apply not_elem_of_cons. split; [done|]. by apply IH.
Qed.

Lemma count_lookup_value_counts (v : cell) (s : list cell) :
  count_lookup v (value_counts s) =
  if decide (v ∈ s) then Some (count_of v s) else None.
Proof.
  destruct (count_lookup v (value_counts s)) as [n|] eqn:Hl.
  - apply count_lookup_Some, value_counts_elem in Hl as [Hv Hn].
    simpl in *. by rewrite decide_True, Hn.
  - apply count_lookup_None in Hl. rewrite decide_False; [done|].
    intros Hv. apply Hl.
    apply (list_elem_of_fmap_2 fst _ (v, count_of v s)).
    by apply value_counts_elem.
Qed.

(** The hierarchy part of the chart: the hierarchy members that occur, in
    hierarchy order, each with its count. *)
Lemma dropna_reindex_value_counts (labels s : list cell) :
  dropna (reindex labels (value_counts s)) =
  map (fun l => (l, count_of l s)) (filter (fun l => l ∈ s) labels).
Proof.
  unfold dropna, reindex. induction labels as [|l labels IH]; [done|].
  rewrite filter_cons. simpl. rewrite count_lookup_value_counts.
  destruct (decide (l ∈ s)); simpl; by rewrite <- IH.
Qed.

Lemma StronglySorted_filter {A} (R : relation A) (P : A -> Prop)
    `{!forall x, Decision (P x)} (l : list A) :
  StronglySorted R l -> StronglySorted R (filter P l).
Proof.
  induction 1 as [|x l Hl IH Hx]; [constructor|].
  rewrite filter_cons. destruct (decide (P x)); [|done].
  constructor; [done|].
  apply Forall_forall. intros y [_ Hy]%list_elem_of_filter.
  by apply (proj1 (Forall_forall _ _) Hx).
Qed.

Lemma NoDup_fst_filter {A B} (P : A * B -> Prop) `{!forall x, Decision (P x)}
    (l : list (A * B)) :
  NoDup (map fst l) -> NoDup (map fst (filter P l)).
Proof.
  induction l as [|x l IH]; simpl; [done|].
  rewrite NoDup_cons. intros [Hx Hl]. rewrite filter_cons.
  destruct (decide (P x)); [|by apply IH].
  simpl. apply NoDup_cons. split; [|by apply IH].
  intros Hin. apply Hx.
  apply list_elem_of_fmap in Hin as (y & Hy & [_ Hin]%list_elem_of_filter).
  rewrite Hy. by apply (list_elem_of_fmap_2 fst).
Qed.

Lemma puesto_count_index (df : DataFrame) (i : nat) :
  column_index (py "Tipo de Puesto") (columns df) = Ok i ->
  let series :=
    map (fun r => fillna (Text (py "Sin Tipo de Puesto")) (cell_at i r)) (rows df) in
  let orden := map Text ORDEN_PUESTO in
  puesto_count df =
  Ok (map (fun l => (l, count_of l series)) (filter (fun l => l ∈ series) orden)
      ++ drop_index orden (value_counts series)).
Proof.
  intros Hi series orden. unfold puesto_count.
  rewrite (getitem_index _ _ _ Hi). cbn [mbind result_bind].
  rewrite List.map_map. fold series. fold orden.
  rewrite dropna_reindex_value_counts.
  destruct (drop_index orden (value_counts series)); [|done].
  by rewrite app_nil_r.
Qed.

(** C8: the position-type chart lists first the hierarchy members that
    occur in the data, in the order of the hierarchy, each with its count,
    and after them every other value of the data (a missing value under its
    label), once each, with its count, the counts never increasing. *)
Theorem puesto_count_order (df : DataFrame) :
  ensure_required df = Ok tt ->
  NoDup (columns df) ->
  let series :=
    map (fun r => fillna (Text (py "Sin Tipo de Puesto"))
                    (label_cell (columns df) (py "Tipo de Puesto") r))
        (rows df) in
  let orden := map Text ORDEN_PUESTO in
  exists ordered others,
    puesto_count df = Ok (ordered ++ others)
    /\ ordered =
       map (fun l => (l, count_of l series)) (filter (fun l => l ∈ series) orden)
    /\ (forall e, e ∈ others <->
           e.1 ∈ series /\ (e.1 ∉ orden) /\ e.2 = count_of e.1 series)
    /\ NoDup (map fst others)
    /\ StronglySorted (fun a b => (b.2 <= a.2)%nat) others.
Proof.
  intros Hok Hnd series orden.
  destruct (validated_index df (py "Tipo de Puesto") Hok Hnd) as [i Hi];
    [vm_compute; set_solver|].
  assert (series =
          map (fun r => fillna (Text (py "Sin Tipo de Puesto")) (cell_at i r)) (rows df))
    as Hseries.
  { subst series. apply map_ext. intros r. by rewrite (label_cell_index _ _ _ r Hi). }
  exists (map (fun l => (l, count_of l series)) (filter (fun l => l ∈ series) orden)),
         (drop_index orden (value_counts series)).
  split; [|split; [done|split; [|split]]].
  - rewrite Hseries. by apply puesto_count_index.
  - intros e. unfold drop_index.
    rewrite list_elem_of_filter, value_counts_elem. tauto.
  - apply NoDup_fst_filter, value_counts_NoDup.
  - apply StronglySorted_filter, value_counts_sorted.
Qed.
End PositionTypes.

(** The scenario of the chart: [Gerente] (3) comes before [Enlace] (5), as in
    the hierarchy, and [UnknownRole] (2) is appended last. *)
Example puesto_count_scenario :
  puesto_count sample_puestos =
  Ok [ (Text (py "Gerente"), 3%nat); (Text (py "Enlace"), 5%nat);
       (Text (py "UnknownRole"), 2%nat) ].
Proof. vm_compute. reflexivity. Qed.

(** ** Alias Resolver *)

(** The search key of [apply_aliases] never holds two adjacent spaces: its
    loop repeats the replacement that [normalize_columns] applies once. *)
Lemma norm_no_double_space `{PyText} (s : pystr) :
  str_contains [SP; SP] (norm s) = false.
Proof. unfold norm. apply collapse_spaces_done. Qed.

(** Facts about the constants of the script that are decided by evaluation. *)
Ltac by_evaluation :=
  match goal with
  | |- ?P => apply (bool_decide_unpack P); vm_compute; exact I
  end.

(** The alias table is Latin-1 text; its aliases are their own search keys,
    the search key of a canonical name is the first of its aliases, no alias
    belongs to two fields, and no alias is empty. *)
Lemma aliases_latin1 :
  Forall (fun e : pystr * list pystr =>
            Forall (fun c => c < 256) e.1
            /\ Forall (fun a : pystr => Forall (fun c => c < 256) a) e.2) aliases.
Proof. by_evaluation. Qed.

Lemma aliases_norm_latin1 :
  Forall (fun e : pystr * list pystr =>
            Forall (fun a : pystr => @norm latin1_text a = a) e.2
            /\ head e.2 = Some (@norm latin1_text e.1)) aliases.
Proof. by_evaluation. Qed.

Lemma aliases_disjoint :
  Forall (fun e1 : pystr * list pystr =>
            Forall (fun e2 : pystr * list pystr =>
                      Forall (fun a : pystr => a ∈ e2.2 -> e1 = e2) e1.2)
                   aliases) aliases.
Proof. by_evaluation. Qed.

Lemma aliases_nonempty :
  Forall (fun e : pystr * list pystr => Forall (fun a : pystr => a <> []) e.2) aliases.
Proof. by_evaluation. Qed.

Section AliasFacts.
Context `{PyText}.

Lemma norm_latin1 (s : pystr) :
  Forall (fun c => c < 256) s -> norm s = @norm latin1_text s.
Proof.
  intros Hs. unfold norm. rewrite str_lower_latin1; [done|].
  apply Forall_forall. intros c Hc%str_strip_elem.
  by apply (proj1 (Forall_forall _ _) Hs).
Qed.

Lemma norm_nil : norm [] = [].
Proof. by rewrite norm_latin1 by constructor. Qed.

Lemma norm_alias (e : pystr * list pystr) (a : pystr) :
  e ∈ aliases -> a ∈ e.2 -> norm a = a.
Proof.
  intros He Ha.
  pose proof (proj1 (Forall_forall _ _) aliases_latin1 e He) as [_ Hl].
  pose proof (proj1 (Forall_forall _ _) aliases_norm_latin1 e He) as [Hn _].
  rewrite norm_latin1 by (by apply (proj1 (Forall_forall _ _) Hl)).
  by apply (proj1 (Forall_forall _ _) Hn).
Qed.

Lemma norm_canonical (e : pystr * list pystr) :
  e ∈ aliases -> norm e.1 ∈ e.2.
Proof.
  intros He.
  pose proof (proj1 (Forall_forall _ _) aliases_latin1 e He) as [Hl _].
  pose proof (proj1 (Forall_forall _ _) aliases_norm_latin1 e He) as [_ Hh].
  rewrite norm_latin1 by done.
  destruct (e.2) as [|a opts]; simpl in Hh; [done|].
  injection Hh as ->. by left.
Qed.

Lemma alias_entry_unique (e1 e2 : pystr * list pystr) (a : pystr) :
  e1 ∈ aliases -> e2 ∈ aliases -> a ∈ e1.2 -> a ∈ e2.2 -> e1 = e2.
Proof.
  intros H1 H2 Ha1 Ha2.
  pose proof (proj1 (Forall_forall _ _) aliases_disjoint e1 H1) as Hd.
  pose proof (proj1 (Forall_forall _ _) Hd e2 H2) as Hd2.
  by apply (proj1 (Forall_forall _ _) Hd2 a Ha1).
Qed.

Lemma alias_nonempty (e : pystr * list pystr) (a : pystr) :
  e ∈ aliases -> a ∈ e.2 -> a <> [].
Proof.
  intros He Ha.
  pose proof (proj1 (Forall_forall _ _) aliases_nonempty e He) as Hn.
  by apply (proj1 (Forall_forall _ _) Hn).
Qed.

(** *** The key-to-header lookup *)

Lemma col_norm_map_snoc (cols : list pystr) (c : pystr) :
  col_norm_map (cols ++ [c]) = <[norm c := c]> (col_norm_map cols).
Proof. unfold col_norm_map. by rewrite foldl_app. Qed.

(** The lookup holds, under a key, the last header with that key. *)
Lemma col_norm_map_lookup (cols : list pystr) (k : pystr) :
  col_norm_map cols !! k = last (filter (fun c => norm c = k) cols).
Proof.
  induction cols as [|c cols IH] using rev_ind; [done|].
  rewrite col_norm_map_snoc, filter_app, filter_cons, filter_nil.
  destruct (decide (norm c = k)) as [<-|Hne].
  - by rewrite lookup_insert_eq, last_snoc.
  - by rewrite lookup_insert_ne, app_nil_r.
Qed.

Lemma col_norm_map_value (cols : list pystr) (k c : pystr) :
  col_norm_map cols !! k = Some c -> norm c = k /\ c ∈ cols.
Proof.
  rewrite col_norm_map_lookup. intros Hl%last_Some_elem_of.
  by apply list_elem_of_filter in Hl.
Qed.

Lemma col_norm_map_None (cols : list pystr) (k : pystr) :
  (forall c, c ∈ cols -> norm c <> k) -> col_norm_map cols !! k = None.
Proof.
  intros Hno. rewrite col_norm_map_lookup. apply last_None.
  apply elem_of_nil_inv. intros c [Hk Hc]%list_elem_of_filter.
  by apply (Hno c).
Qed.

Lemma col_norm_map_last (pre post : list pystr) (h k : pystr) :
  norm h = k -> (forall c, c ∈ post -> norm c <> k) ->
  col_norm_map (pre ++ h :: post) !! k = Some h.
Proof.
  intros Hk Hpost. rewrite col_norm_map_lookup, filter_app, filter_cons.
  rewrite decide_True by done.
  replace (filter (fun c => norm c = k) post) with (@nil pystr).
  - by rewrite last_snoc.
  - symmetry. apply elem_of_nil_inv. intros c [Hc Hin]%list_elem_of_filter.
    by apply (Hpost c).
Qed.

(** *** The loop over the aliases of one field *)

Lemma found_original_inv (m : gmap (list N) (list N)) (opts : list pystr) (h : pystr) :
  found_original m opts = Some h -> exists a, a ∈ opts /\ m !! norm a = Some h.
Proof.
  induction opts as [|a opts IH]; simpl; [done|].
  destruct (m !! norm a) as [o|] eqn:Hl.
  - intros [= ->]. exists a. split; [by left | done].
  - intros (a' & Ha' & Hl')%IH. exists a'. split; [by right | done].
Qed.

(** The first alias with a header decides; the aliases before it have none. *)
Lemma found_original_first (m : gmap (list N) (list N)) (opts : list pystr)
    (i : nat) (a h : pystr) :
  opts !! i = Some a -> m !! norm a = Some h ->
  (forall j a', (j < i)%nat -> opts !! j = Some a' -> m !! norm a' = None) ->
  found_original m opts = Some h.
Proof.
  revert i. induction opts as [|a0 opts IH]; intros i Hi Hl Hbefore; [done|].
  destruct i as [|i]; simpl in *.
  - injection Hi as ->. by rewrite Hl.
  - rewrite (Hbefore 0%nat a0) by (done || lia).
    apply (IH i); [done..|].
    intros j a' Hj Ha'. apply (Hbefore (S j) a'); [lia | done].
Qed.

Lemma found_original_only (m : gmap (list N) (list N)) (opts : list pystr) (h : pystr) :
  (forall a, a ∈ opts -> m !! norm a = Some h \/ m !! norm a = None) ->
  (exists a, a ∈ opts /\ m !! norm a = Some h) ->
  found_original m opts = Some h.
Proof.
  induction opts as [|a0 opts IH]; intros Hall (a & Ha & Hl).
  - by apply elem_of_nil in Ha.
  - simpl. destruct (Hall a0) as [H0|H0]; [by left | by rewrite H0 |].
    rewrite H0. apply IH.
    + intros a' Ha'. apply Hall. by right.
    + apply elem_of_cons in Ha as [->|Ha]; [congruence|]. by exists a.
Qed.

(** *** The loop over the fields *)

Lemma rename_step_lookup (cols : list pystr) (m rm : gmap (list N) (list N))
    (e : pystr * list pystr) (c : pystr) :
  rename_step cols m rm e !! c =
  if decide (selects cols m c e) then Some e.1 else rm !! c.
Proof.
  destruct e as [F opts]. unfold rename_step.
  destruct (decide (selects cols m c (F, opts))) as [(Hf & Hne & Hin)|Hns];
    cbn [fst snd] in *.
  - rewrite Hf. replace (truthy c) with true by (by destruct c).
    rewrite bool_decide_eq_true_2 by done. apply lookup_insert_eq.
  - destruct (found_original m opts) as [f|] eqn:Hf; [|done].
    destruct (truthy f && bool_decide (f ∈ cols)) eqn:Ht; [|done].
    apply andb_true_iff in Ht as [Hne Hin%bool_decide_eq_true].
    rewrite lookup_insert_ne; [done|]. intros ->. apply Hns.
    split; [done|]. split; [|done]. by destruct c.
Qed.

Lemma build_lookup_keep (cols : list pystr) (m : gmap (list N) (list N))
    (table : list (pystr * list pystr)) (rm : gmap (list N) (list N)) (c F : pystr) :
  rm !! c = Some F ->
  (forall e, e ∈ table -> selects cols m c e -> e.1 = F) ->
  foldl (rename_step cols m) rm table !! c = Some F.
Proof.
  revert rm. induction table as [|e table IH]; intros rm Hrm Hall; [done|].
  simpl. apply IH.
  - rewrite rename_step_lookup. case_decide as Hs; [|done].
    f_equal. apply Hall; [by left | done].
  - intros e' He'. apply Hall. by right.
Qed.

Lemma build_lookup_some (cols : list pystr) (m : gmap (list N) (list N))
    (table : list (pystr * list pystr)) (rm : gmap (list N) (list N)) (c F : pystr) :
  (forall e, e ∈ table -> selects cols m c e -> e.1 = F) ->
  (exists e, e ∈ table /\ selects cols m c e) ->
  foldl (rename_step cols m) rm table !! c = Some F.
Proof.
  revert rm. induction table as [|e table IH]; intros rm Hall (e0 & He0 & Hs0).
  - by apply elem_of_nil in He0.
  - simpl. destruct (decide (selects cols m c e)) as [Hs|Hs].
    + apply build_lookup_keep.
      * rewrite rename_step_lookup, decide_True by done.
        f_equal. apply Hall; [by left | done].
      * intros e' He'. apply Hall. by right.
    + apply IH.
      * intros e' He'. apply Hall. by right.
      * apply elem_of_cons in He0 as [->|He0]; [done|]. by exists e0.
Qed.

Lemma build_lookup_none (cols : list pystr) (m : gmap (list N) (list N))
    (table : list (pystr * list pystr)) (rm : gmap (list N) (list N)) (c : pystr) :
  (forall e, e ∈ table -> ~ selects cols m c e) ->
  foldl (rename_step cols m) rm table !! c = rm !! c.
Proof.
  revert rm. induction table as [|e table IH]; intros rm Hall; [done|].
  simpl. rewrite IH by (intros e' He'; apply Hall; by right).
  rewrite rename_step_lookup, decide_False; [done|]. apply Hall. by left.
Qed.

(** A header found by an entry of the alias table has the key of one of the
    aliases of that entry. *)
Lemma selects_key (cols : list pystr) (c : pystr) (e : pystr * list pystr) :
  selects cols (col_norm_map cols) c e ->
  exists a, a ∈ e.2 /\ col_norm_map cols !! norm a = Some c /\ norm c = norm a.
Proof.
  intros [(a & Ha & Hl)%found_original_inv _]. exists a.
  split; [done|]. split; [done|]. by apply col_norm_map_value in Hl as [? _].
Qed.

Lemma rename_labels_lookup (rm : gmap (list N) (list N)) (cols : list pystr)
    (p : nat) (c : pystr) :
  cols !! p = Some c -> rename_labels rm cols !! p = Some (default c (rm !! c)).
Proof.
  intros Hp. unfold rename_labels.
  change (map ?f cols) with (f <$> cols). by rewrite list_lookup_fmap, Hp.
Qed.

Lemma header_nonempty (h : pystr) (e : pystr * list pystr) (a : pystr) :
  e ∈ aliases -> a ∈ e.2 -> norm h = norm a -> h <> [].
Proof.
  intros He Ha Hn ->. rewrite norm_nil, (norm_alias e a He Ha) in Hn.
  by apply (alias_nonempty e a He Ha).
Qed.

(** In any table a header that matches no alias keeps its label. *)
Lemma apply_aliases_unmatched (cols : list pystr) (p : nat) (c : pystr) :
  cols !! p = Some c -> ~ matches_alias c ->
  apply_aliases_labels cols !! p = Some c.
Proof.
  intros Hp Hno. unfold apply_aliases_labels.
  rewrite (rename_labels_lookup _ _ _ c Hp).
  unfold build_rename_map. rewrite build_lookup_none; [done|].
  intros e He (a & Ha & _ & Hn)%selects_key. apply Hno. by exists e, a.
Qed.

(** C6: when one header [h] has the search key of an alias [v] of the
    canonical field [F], and no other header matches any alias, alias
    resolution renames [h] to [F] and leaves every other header as it is;
    the resolved labels hold [F] exactly once.  And in any table whatever, a
    header that matches no alias keeps its label. *)
Theorem apply_aliases_single_header (F : pystr) (opts : list pystr) (v h : pystr)
    (pre post : list pystr) :
  (F, opts) ∈ aliases ->
  v ∈ opts ->
  norm h = v ->
  (forall c, c ∈ pre ++ post -> ~ matches_alias c) ->
  apply_aliases_labels (pre ++ h :: post) = pre ++ F :: post
  /\ length (filter (fun c => c = F) (apply_aliases_labels (pre ++ h :: post))) = 1%nat
  /\ (forall cols p c,
        cols !! p = Some c -> ~ matches_alias c ->
        apply_aliases_labels cols !! p = Some c).
Proof.
  intros HF Hv Hh Hother.
  enough (apply_aliases_labels (pre ++ h :: post) = pre ++ F :: post
          /\ length (filter (fun c => c = F)
                            (apply_aliases_labels (pre ++ h :: post))) = 1%nat)
    as [H1 H2] by (split; [exact H1 | split; [exact H2 | exact apply_aliases_unmatched]]).
  rewrite <- (norm_alias (F, opts) v HF Hv) in Hh.
  set (cols := pre ++ h :: post). set (m := col_norm_map cols).
  assert (forall c, c ∈ post -> norm c <> norm v) as Hpost.
  { intros c Hc Hn. apply (Hother c); [apply elem_of_app; by right|].
    by exists (F, opts), v. }
  assert (m !! norm v = Some h) as Hmv by (by apply col_norm_map_last).
  assert (forall e a, e ∈ aliases -> a ∈ e.2 ->
                      m !! norm a = Some h \/ m !! norm a = None) as Hkeys.
  { intros e a He Ha. destruct (decide (norm a = norm v)) as [->|Hne]; [by left|].
    right. apply col_norm_map_None. intros c Hc Hn.
    apply elem_of_app in Hc as [Hc|[->|Hc]%elem_of_cons].
    - apply (Hother c); [apply elem_of_app; by left|]. by exists e, a.
    - congruence.
    - apply (Hother c); [apply elem_of_app; by right|]. by exists e, a. }
  assert (selects cols m h (F, opts)) as Hsel.
  { split; [|split].
    - apply found_original_only; [|by exists v].
      intros a Ha. by apply (Hkeys (F, opts) a).
    - by apply (header_nonempty h (F, opts) v).
    - apply elem_of_app. right. by left. }
  assert (forall c e, e ∈ aliases -> selects cols m c e -> matches_alias c) as Hmatch.
  { intros c e He (a & Ha & _ & Hn)%selects_key. by exists e, a. }
  assert (build_rename_map aliases cols !! h = Some F) as Hrh.
  { apply build_lookup_some; [|by exists (F, opts)].
    intros e He (a & Ha & _ & Hn)%selects_key.
    assert (a = v) as ->.
    { rewrite <- (norm_alias e a He Ha), <- (norm_alias (F, opts) v HF Hv). congruence. }
    by rewrite (alias_entry_unique e (F, opts) v He HF Ha Hv). }
  assert (forall c, c ∈ pre ++ post -> build_rename_map aliases cols !! c = None) as Hrc.
  { intros c Hc. unfold build_rename_map. rewrite build_lookup_none; [done|].
    intros e He Hs. apply (Hother c Hc). by apply (Hmatch c e). }
  assert (apply_aliases_labels cols = pre ++ F :: post) as Hres.
  { unfold apply_aliases_labels, rename_labels.
    set (rm := build_rename_map aliases cols) in *. unfold cols.
    rewrite map_app. cbn [map]. rewrite Hrh. cbn [default]. f_equal.
    - rewrite <- (map_id pre) at 2. apply map_ext_in. intros c Hc%list_elem_of_In.
      rewrite Hrc; [done|]. apply elem_of_app. by left.
    - f_equal. rewrite <- (map_id post) at 2.
      apply map_ext_in. intros c Hc%list_elem_of_In.
      rewrite Hrc; [done|]. apply elem_of_app. by right. }
  split; [exact Hres|]. rewrite Hres.
  assert (forall c, c ∈ pre ++ post -> c <> F) as HnF.
  { intros c Hc ->. apply (Hother F Hc).
    exists (F, opts), (norm F). split; [done|].
    pose proof (norm_canonical (F, opts) HF) as Hcan. split; [done|].
    symmetry. by apply (norm_alias (F, opts)). }
  assert (forall l : list pystr, (forall c, c ∈ l -> c ∈ pre ++ post) ->
                                 filter (fun c => c = F) l = []) as Hnone.
  { intros l Hl. apply elem_of_nil_inv. intros c [-> Hc]%list_elem_of_filter.
    by apply (HnF F (Hl F Hc)). }
  rewrite filter_app, filter_cons, decide_True by done.
  rewrite (Hnone pre) by (intros c Hc; apply elem_of_app; by left).
  rewrite (Hnone post) by (intros c Hc; apply elem_of_app; by right).
  done.
Qed.

(** C9, as amended: when a header [h] has the search key of an alias [a] of
    the canonical field [F], no later header has that key, and no alias
    that precedes [a] in the list of [F] is the key of any header, alias
    resolution renames [h] (the last-positioned header with that key) to
    [F], and every header with the same key but another label keeps its
    label. *)
Theorem apply_aliases_last_header_wins (F : pystr) (opts : list pystr) (i : nat)
    (a h : pystr) (pre post : list pystr) :
  (F, opts) ∈ aliases ->
  opts !! i = Some a ->
  norm h = a ->
  (forall c, c ∈ post -> norm c <> a) ->
  (forall j a' c, (j < i)%nat -> opts !! j = Some a' ->
                  c ∈ pre ++ h :: post -> norm c <> a') ->
  apply_aliases_labels (pre ++ h :: post) !! length pre = Some F
  /\ (forall p c,
        (pre ++ h :: post) !! p = Some c -> norm c = a -> c <> h ->
        apply_aliases_labels (pre ++ h :: post) !! p = Some c).
Proof.
  intros HF Hi Hh Hpost Hprio.
  assert (a ∈ opts) as Ha by (by eapply list_elem_of_lookup_2).
  assert (forall j a' c, (j < i)%nat -> opts !! j = Some a' ->
                         c ∈ pre ++ h :: post -> norm c <> norm a') as Hprio'.
  { intros j a' c Hj Ha' Hc.
    rewrite (norm_alias (F, opts) a' HF) by (by eapply list_elem_of_lookup_2).
    by apply (Hprio j a' c). }
  clear Hprio. rename Hprio' into Hprio.
  rewrite <- (norm_alias (F, opts) a HF Ha) in Hh, Hpost.
  enough (apply_aliases_labels (pre ++ h :: post) !! length pre = Some F
          /\ (forall p c,
                (pre ++ h :: post) !! p = Some c -> norm c = norm a -> c <> h ->
                apply_aliases_labels (pre ++ h :: post) !! p = Some c)) as [H1 H2].
  { split; [exact H1|]. intros p c Hp Hc. apply H2; [done|].
    by rewrite (norm_alias (F, opts) a HF Ha). }
  set (cols := pre ++ h :: post). set (m := col_norm_map cols).
  assert (m !! norm a = Some h) as Hma by (by apply col_norm_map_last).
  assert (selects cols m h (F, opts)) as Hsel.
  { split; [|split].
    - apply (found_original_first m opts i a h); [done..|].
      intros j a' Hj Ha'. apply col_norm_map_None.
      intros c Hc. by apply (Hprio j a' c).
    - by apply (header_nonempty h (F, opts) a).
    - apply elem_of_app. right. by left. }
  assert (forall c e, e ∈ aliases -> selects cols m c e -> norm c = norm a ->
                      c = h /\ e = (F, opts)) as Huniq.
  { intros c e He (a2 & Ha2 & Hl & Hn)%selects_key Hca.
    assert (a2 = a) as ->.
    { rewrite <- (norm_alias e a2 He Ha2), <- (norm_alias (F, opts) a HF Ha). congruence. }
    split; [|by apply (alias_entry_unique e (F, opts) a)].
    fold m in Hl. congruence. }
  split.
  - unfold apply_aliases_labels.
    rewrite (rename_labels_lookup _ _ _ h) by (by apply list_lookup_middle).
    unfold build_rename_map. fold cols. fold m.
    rewrite (build_lookup_some cols m aliases ∅ h F); [done| |by exists (F, opts)].
    intros e He Hs. by destruct (Huniq h e He Hs Hh) as [_ ->].
  - intros p c Hp Hc Hne. unfold apply_aliases_labels.
    rewrite (rename_labels_lookup _ _ _ c Hp).
    unfold build_rename_map. fold cols. fold m.
    rewrite build_lookup_none; [done|].
    intros e He Hs. by destruct (Huniq c e He Hs Hc) as [? _].
Qed.
End AliasFacts.

(** ** Sufficient conditions that evaluate *)

Section Criteria.
Context `{PyText}.

Lemma no_alias_criterion (l : list pystr) :
  Forall (fun c => Forall (fun e : pystr * list pystr =>
                             Forall (fun a => norm c <> norm a) e.2) aliases) l ->
  forall c, c ∈ l -> ~ matches_alias c.
Proof.
  intros Hl c Hc (e & a & He & Ha & Hn).
  pose proof (proj1 (Forall_forall _ _) Hl c Hc) as H1.
  pose proof (proj1 (Forall_forall _ _) H1 e He) as H2.
  by apply (proj1 (Forall_forall _ _) H2 a Ha).
Qed.

Lemma no_earlier_alias_criterion (opts cols : list pystr) (i : nat) :
  Forall (fun a' => Forall (fun c => norm c <> a') cols) (take i opts) ->
  forall j a' c, (j < i)%nat -> opts !! j = Some a' -> c ∈ cols -> norm c <> a'.
Proof.
  intros Hl j a' c Hj Ha' Hc.
  assert (a' ∈ take i opts) as Hin.
  { apply list_elem_of_lookup. exists j. by rewrite lookup_take_lt. }
  pose proof (proj1 (Forall_forall _ _) Hl a' Hin) as H1.
  by apply (proj1 (Forall_forall _ _) H1 c Hc).
Qed.
End Criteria.

(** * Further properties *)

(** ** Header Normalizer: what one pass achieves *)

Lemma lstrip_head (s : pystr) (c : N) :
  head (lstrip s) = Some c -> isspace c = false.
Proof.
  induction s as [|x t IH]; simpl; [done|].
  destruct (isspace x) eqn:Hx; [exact IH|].
  simpl. by intros [= <-].
Qed.

Lemma lstrip_id (s : pystr) :
  (forall c, head s = Some c -> isspace c = false) -> lstrip s = s.
Proof.
  destruct s as [|x t]; simpl; [done|].
  intros Hh. by rewrite (Hh x eq_refl).
Qed.

Lemma lstrip_snoc (l : pystr) (c : N) :
  isspace c = false -> exists l', lstrip (l ++ [c]) = l' ++ [c].
Proof.
  intros Hc. induction l as [|x l IH]; simpl.
  - rewrite Hc. by exists [].
  - destruct (isspace x); [exact IH|]. by exists (x :: l).
Qed.

Lemma rstrip_prefix (s : pystr) : rstrip s `prefix_of` s.
Proof.
  unfold rstrip. destruct (lstrip_suffix (reverse s)) as [w Hw].
  exists (reverse w). apply (f_equal reverse) in Hw.
  by rewrite reverse_involutive, reverse_app in Hw.
Qed.

Lemma rstrip_last (s : pystr) (c : N) :
  last (rstrip s) = Some c -> isspace c = false.
Proof. unfold rstrip. rewrite last_reverse. apply lstrip_head. Qed.

Lemma rstrip_head (s : pystr) (c : N) :
  (forall x, head s = Some x -> isspace x = false) ->
  head (rstrip s) = Some c -> isspace c = false.
Proof.
  intros Hh. destruct s as [|x t]; [done|].
  specialize (Hh x eq_refl). unfold rstrip.
  rewrite reverse_cons.
  destruct (lstrip_snoc (reverse t) x Hh) as [l' ->].
  rewrite reverse_app. simpl. by intros [= <-].
Qed.

Lemma rstrip_id (s : pystr) :
  (forall c, last s = Some c -> isspace c = false) -> rstrip s = s.
Proof.
  intros Hl. unfold rstrip. rewrite lstrip_id.
  - apply reverse_involutive.
  - intros c Hc. apply Hl. rewrite <- (reverse_involutive s). by rewrite last_reverse.
Qed.

Lemma str_strip_no_edge_space (s : pystr) : no_edge_space (str_strip s).
Proof.
  unfold str_strip. split.
  - intros c. apply rstrip_head. apply lstrip_head.
  - apply rstrip_last.
Qed.

Lemma str_strip_id (s : pystr) : no_edge_space s -> str_strip s = s.
Proof.
  intros [Hh Hl]. unfold str_strip. rewrite lstrip_id by done. by apply rstrip_id.
Qed.

Lemma str_strip_length (s : pystr) : (length (str_strip s) <= length s)%nat.
Proof.
  unfold str_strip.
  etrans; [apply prefix_length, rstrip_prefix | apply suffix_length, lstrip_suffix].
Qed.

Lemma str_replace_char_id (c d : N) (s : pystr) :
  c ∉ s -> str_replace [c] [d] s = s.
Proof.
  intros Hc. rewrite str_replace_char.
  rewrite <- (map_id s) at 2. apply map_ext_in. intros x Hx%list_elem_of_In.
  destruct (N.eqb_spec x c) as [->|]; done.
Qed.

Lemma str_replace_double_id (s : pystr) :
  str_contains [SP; SP] s = false -> str_replace [SP; SP] [SP] s = s.
Proof.
  induction s as [|a|a b t IH1 IH2] using pystr_pair_ind.
  - done.
  - intros _. apply str_replace_double_single.
  - rewrite str_contains_double_cons, str_replace_double_cons.
    intros [Hab Hc]%orb_false_iff. rewrite Hab. f_equal. by apply IH2.
Qed.

(** X1: every label the Header Normalizer returns is free of line feeds,
    carriage returns and tabs and has no white space at either end; the
    labels keep their number (and so their positions). *)
Theorem normalize_labels_clean (cols : list pystr) :
  length (normalize_labels cols) = length cols
  /\ forall c, c ∈ normalize_labels cols ->
       (LF ∉ c) /\ (CR ∉ c) /\ (TAB ∉ c) /\ no_edge_space c.
Proof.
  split; [apply length_map|].
  intros c' (c & -> & _)%list_elem_of_fmap.
  destruct (normalize_label_no_control c) as (H1 & H2 & H3).
  repeat split; try done; apply str_strip_no_edge_space.
Qed.

(** X2: the labels the Header Normalizer leaves as they are are exactly the
    clean ones: without line feed, carriage return or tab, without two
    adjacent spaces, and without white space at either end. *)
Theorem normalize_label_fixed_point (c : pystr) :
  normalize_label c = c <->
  (LF ∉ c) /\ (CR ∉ c) /\ (TAB ∉ c)
  /\ str_contains [SP; SP] c = false /\ no_edge_space c.
Proof.
  split.
  - intros Hfix. destruct (normalize_label_no_control c) as (H1 & H2 & H3).
    rewrite Hfix in H1, H2, H3.
    assert (no_edge_space c) as He by (rewrite <- Hfix; apply str_strip_no_edge_space).
    split; [done|]. split; [done|]. split; [done|]. split; [|done].
    unfold normalize_label in Hfix.
    rewrite (str_replace_char_id LF), (str_replace_char_id CR),
      (str_replace_char_id TAB) in Hfix by done.
    destruct (str_contains [SP; SP] c) eqn:Hc; [|done].
    pose proof (str_replace_double_shrinks c Hc) as Hlt.
    pose proof (str_strip_length (str_replace [SP; SP] [SP] c)) as Hle.
    rewrite Hfix in Hle. lia.
  - intros (H1 & H2 & H3 & Hd & He). unfold normalize_label.
    rewrite (str_replace_char_id LF), (str_replace_char_id CR),
      (str_replace_char_id TAB) by done.
    rewrite str_replace_double_id by done. by apply str_strip_id.
Qed.

Lemma str_replace_double_head (s : pystr) :
  head (str_replace [SP; SP] [SP] s) = head s.
Proof.
  destruct s as [|a [|b t]]; [done| |].
  - by rewrite str_replace_double_single.
  - rewrite str_replace_double_cons.
    destruct ((a =? SP) && (b =? SP)) eqn:E; [|done].
    apply andb_true_iff in E as [->%N.eqb_eq _]. done.
Qed.

Lemma str_contains_cons (old : pystr) (x : N) (t : pystr) :
  str_contains old (x :: t) = startswith old (x :: t) || str_contains old t.
Proof. reflexivity. Qed.

Lemma str_contains_double_head (a : N) (s : pystr) :
  str_contains [SP; SP] (a :: s) =
  ((a =? SP) && bool_decide (head s = Some SP)) || str_contains [SP; SP] s.
Proof.
  destruct s as [|b t].
  - cbn [str_contains startswith head].
    rewrite andb_false_r. simpl. by rewrite andb_false_r.
  - rewrite str_contains_double_cons. f_equal. f_equal. simpl.
    destruct (N.eqb_spec b SP) as [->|Hne].
    + by rewrite bool_decide_eq_true_2.
    + rewrite bool_decide_eq_false_2; [done|]. intros [= ?]. done.
Qed.

(** One pass over text without three adjacent spaces leaves no two. *)
Lemma str_replace_double_no_triple (s : pystr) :
  str_contains [SP; SP; SP] s = false ->
  str_contains [SP; SP] (str_replace [SP; SP] [SP] s) = false.
Proof.
  induction s as [|a|a b t IH1 IH2] using pystr_pair_ind.
  - done.
  - intros _. rewrite str_replace_double_single. cbn. by rewrite andb_false_r.
  - intros H3. rewrite str_contains_cons in H3.
    apply orb_false_iff in H3 as [Hs Hbt].
    rewrite str_replace_double_cons.
    destruct ((a =? SP) && (b =? SP)) eqn:E; rewrite str_contains_double_head.
    + apply andb_true_iff in E as [->%N.eqb_eq ->%N.eqb_eq].
      rewrite str_replace_double_head.
      rewrite str_contains_cons in Hbt. apply orb_false_iff in Hbt as [_ Ht].
      rewrite (IH1 Ht), orb_false_r.
      rewrite bool_decide_eq_false_2; [done|].
      intros Hh. destruct t as [|x t]; [done|]. injection Hh as ->.
      by cbn in Hs.
    + rewrite (IH2 Hbt), orb_false_r, str_replace_double_head. simpl.
      destruct (a =? SP); [|done]. simpl in E. simpl.
      apply bool_decide_eq_false_2. intros [= ->]. done.
Qed.

Lemma startswith_app (p l r : pystr) :
  startswith p l = true -> startswith p (l ++ r) = true.
Proof.
  revert l. induction p as [|a p IH]; intros [|b l]; simpl; try done.
  intros [-> Hp]%andb_true_iff. by rewrite IH.
Qed.

Lemma str_contains_app_l (p l r : pystr) :
  str_contains p l = true -> str_contains p (l ++ r) = true.
Proof.
  induction l as [|x l IH].
  - destruct p as [|a p]; [|done]. intros _. by destruct r.
  - rewrite <- app_comm_cons, !str_contains_cons.
    intros [Hs|Hc]%orb_true_iff.
    + apply (startswith_app p (x :: l) r) in Hs. simpl in Hs. by rewrite Hs.
    + rewrite (IH Hc). apply orb_true_r.
Qed.

Lemma str_contains_app_r (p l r : pystr) :
  str_contains p r = true -> str_contains p (l ++ r) = true.
Proof.
  intros Hr. induction l as [|x l IH]; [done|].
  rewrite <- app_comm_cons, str_contains_cons, IH. apply orb_true_r.
Qed.

Lemma str_contains_strip (p s : pystr) :
  str_contains p s = false -> str_contains p (str_strip s) = false.
Proof.
  intros Hs. destruct (str_contains p (str_strip s)) eqn:Hc; [|done].
  unfold str_strip in Hc.
  destruct (rstrip_prefix (lstrip s)) as [w1 Hw1].
  destruct (lstrip_suffix s) as [w0 Hw0].
  apply (str_contains_app_l _ _ w1) in Hc. rewrite <- Hw1 in Hc.
  apply (str_contains_app_r _ w0) in Hc. rewrite <- Hw0 in Hc. congruence.
Qed.

(** X3: when the label, its control characters turned into spaces, has no
    run of three spaces, the normalised label has no two adjacent spaces:
    the single pass of the Header Normalizer is enough for runs of two. *)
Theorem normalize_label_collapses_pairs (c : pystr) :
  str_contains [SP; SP; SP] (control_to_space c) = false ->
  str_contains [SP; SP] (normalize_label c) = false.
Proof.
  intros H3. unfold normalize_label.
  apply str_contains_strip. by apply str_replace_double_no_triple.
Qed.

(** ** Alias Resolver: search keys *)

Lemma control_to_space_no_control (s : pystr) (x : N) :
  x ∈ control_to_space s -> x <> LF /\ x <> CR /\ x <> TAB.
Proof.
  unfold control_to_space. rewrite !str_replace_char.
  intros (x2 & -> & Hx)%list_elem_of_fmap.
  apply list_elem_of_fmap in Hx as (x1 & -> & Hx).
  apply list_elem_of_fmap in Hx as (x0 & -> & _).
  unfold LF, CR, TAB, SP.
  destruct (N.eqb_spec x0 10) as [->|E0]; [done|].
  destruct (N.eqb_spec x0 13) as [->|E1]; [done|].
  destruct (N.eqb_spec x0 9) as [->|E2]; done.
Qed.

Lemma collapse_loop_elem (fuel : nat) (s : pystr) (x : N) :
  x ∈ collapse_loop fuel s -> x ∈ s.
Proof.
  revert s. induction fuel as [|fuel IH]; intros s; simpl; [done|].
  destruct (str_contains [SP; SP] s); [|done].
  intros Hx%IH. by apply str_replace_double_elem.
Qed.

(** X4: a search key of the Alias Resolver holds no line feed, carriage
    return or tab and no two adjacent spaces, whatever the header. *)
Theorem norm_key_clean `{PyText} (s : pystr) :
  (LF ∉ norm s) /\ (CR ∉ norm s) /\ (TAB ∉ norm s)
  /\ str_contains [SP; SP] (norm s) = false.
Proof.
  assert (forall x, x ∈ norm s -> x <> LF /\ x <> CR /\ x <> TAB) as Hall.
  { intros x Hx. unfold norm, collapse_spaces in Hx.
    apply collapse_loop_elem in Hx.
    by apply (control_to_space_no_control (str_lower (str_strip s))). }
  split; [|split; [|split]]; try (intros Hx; apply Hall in Hx; tauto).
  apply norm_no_double_space.
Qed.

(** ** Alias Resolver: what a resolution can do *)

(** No canonical name heads two entries of the alias table, and every
    required field has an entry. *)
Lemma aliases_canonical_unique :
  Forall (fun e1 : pystr * list pystr =>
            Forall (fun e2 : pystr * list pystr => e1.1 = e2.1 -> e1 = e2) aliases)
         aliases.
Proof. by_evaluation. Qed.

Lemma required_in_aliases :
  Forall (fun F : pystr => Exists (fun e : pystr * list pystr => e.1 = F) aliases)
         required.
Proof. by_evaluation. Qed.

Section AliasResolution.
Context `{PyText}.

Lemma alias_opts_unique (F : pystr) (opts1 opts2 : list pystr) :
  (F, opts1) ∈ aliases -> (F, opts2) ∈ aliases -> opts1 = opts2.
Proof.
  intros H1 H2.
  pose proof (proj1 (Forall_forall _ _) aliases_canonical_unique _ H1) as Hu.
  pose proof (proj1 (Forall_forall _ _) Hu _ H2 eq_refl) as Heq.
  by injection Heq.
Qed.

Lemma build_lookup_inv (cols : list pystr) (m : gmap (list N) (list N))
    (table : list (pystr * list pystr)) (rm : gmap (list N) (list N)) (c F : pystr) :
  foldl (rename_step cols m) rm table !! c = Some F ->
  rm !! c = Some F \/ exists e, e ∈ table /\ selects cols m c e /\ e.1 = F.
Proof.
  revert rm. induction table as [|e table IH]; intros rm; simpl; [by left|].
  intros [Hrm|(e' & He' & Hs & HF)]%IH.
  - rewrite rename_step_lookup in Hrm. case_decide as Hs; [|by left].
    right. exists e. split; [by left|]. split; [done|]. congruence.
  - right. exists e'. split; [by right | done].
Qed.

(** A header found by an entry of the table has, as its search key, one of
    the aliases of that entry. *)
Lemma selects_alias (cols : list pystr) (c : pystr) (e : pystr * list pystr) :
  e ∈ aliases -> selects cols (col_norm_map cols) c e -> norm c ∈ e.2.
Proof.
  intros He (a & Ha & _ & Hn)%selects_key.
  by rewrite Hn, (norm_alias e a He Ha).
Qed.

(** The rename map sends a header to [F] exactly when the entry of [F]
    finds it. *)
Lemma build_rename_map_lookup (cols : list pystr) (c F : pystr) :
  build_rename_map aliases cols !! c = Some F <->
  exists opts, (F, opts) ∈ aliases /\ selects cols (col_norm_map cols) c (F, opts).
Proof.
  unfold build_rename_map. split.
  - intros [Hrm|([F' opts] & He & Hs & HF)]%build_lookup_inv; [done|].
    simpl in HF. subst F'. by exists opts.
  - intros (opts & HF & Hs). apply build_lookup_some; [|by exists (F, opts)].
    intros e He Hse.
    pose proof (selects_alias cols c e He Hse) as H1.
    pose proof (selects_alias cols c (F, opts) HF Hs) as H2.
    by rewrite (alias_entry_unique e (F, opts) (norm c) He HF H1 H2).
Qed.

Lemma apply_aliases_labels_lookup (cols : list pystr) (p : nat) (c : pystr) :
  cols !! p = Some c ->
  apply_aliases_labels cols !! p =
  Some (default c (build_rename_map aliases cols !! c)).
Proof. apply rename_labels_lookup. Qed.

Lemma apply_aliases_labels_length (cols : list pystr) :
  length (apply_aliases_labels cols) = length cols.
Proof. apply length_map. Qed.

(** X5: alias resolution keeps the number of headers, and at every position
    the resolved label is either the header itself or the canonical name of
    the field one of whose aliases is the search key of that header: no
    header is ever renamed to the name of a field it does not match. *)
Theorem apply_aliases_only_matching (cols : list pystr) :
  length (apply_aliases_labels cols) = length cols
  /\ forall p c, cols !! p = Some c ->
       apply_aliases_labels cols !! p = Some c
       \/ exists F opts, (F, opts) ∈ aliases /\ norm c ∈ opts
                         /\ apply_aliases_labels cols !! p = Some F.
Proof.
  split; [apply apply_aliases_labels_length|].
  intros p c Hp. rewrite (apply_aliases_labels_lookup cols p c Hp).
  destruct (build_rename_map aliases cols !! c) as [F|] eqn:Hrm; [|by left].
  right. apply build_rename_map_lookup in Hrm as (opts & HF & Hs).
  exists F, opts. split; [done|]. split; [|done].
  by apply (selects_alias cols c (F, opts)).
Qed.

Lemma col_norm_map_is_Some (cols : list pystr) (c : pystr) :
  c ∈ cols -> is_Some (col_norm_map cols !! norm c).
Proof.
  intros Hc. rewrite col_norm_map_lookup. apply last_is_Some.
  intros Hnil. assert (c ∈ filter (fun x => norm x = norm c) cols) as Hin
    by (by apply list_elem_of_filter).
  rewrite Hnil in Hin. by apply elem_of_nil in Hin.
Qed.

Lemma found_original_is_Some (m : gmap (list N) (list N)) (opts : list pystr) (a : pystr) :
  a ∈ opts -> is_Some (m !! norm a) -> is_Some (found_original m opts).
Proof.
  induction opts as [|a0 opts IH]; intros Ha Hm; [by apply elem_of_nil in Ha|].
  simpl. destruct (m !! norm a0) as [o|] eqn:H0; [done|].
  apply elem_of_cons in Ha as [->|Ha]; [|by apply IH].
  rewrite H0 in Hm. by destruct Hm.
Qed.

(** A field one of whose aliases is the key of some header finds a header. *)
Lemma field_finds_header (cols : list pystr) (F : pystr) (opts : list pystr) (c : pystr) :
  (F, opts) ∈ aliases -> c ∈ cols -> norm c ∈ opts ->
  exists g, selects cols (col_norm_map cols) g (F, opts).
Proof.
  intros HF Hc Hk.
  destruct (found_original_is_Some (col_norm_map cols) opts (norm c) Hk) as [g Hg].
  { rewrite (norm_alias (F, opts) (norm c) HF Hk). by apply col_norm_map_is_Some. }
  exists g. split; [done|].
  pose proof Hg as (a & Ha & Hl)%found_original_inv.
  apply col_norm_map_value in Hl as [Hn Hin].
  split; [|done]. by apply (header_nonempty g (F, opts) a).
Qed.

Lemma canonical_present_source (cols : list pystr) (F : pystr) (opts : list pystr) :
  (F, opts) ∈ aliases -> F ∈ apply_aliases_labels cols ->
  exists c, c ∈ cols /\ norm c ∈ opts.
Proof.
  intros HF (p & Hp)%list_elem_of_lookup.
  destruct (cols !! p) as [c|] eqn:Hc.
  - rewrite (apply_aliases_labels_lookup cols p c Hc) in Hp.
    injection Hp as Hp. exists c.
    split; [by eapply list_elem_of_lookup_2|].
    destruct (build_rename_map aliases cols !! c) as [G|] eqn:Hrm; simpl in Hp.
    + subst G. apply build_rename_map_lookup in Hrm as (opts' & HF' & Hs).
      rewrite (alias_opts_unique F opts opts' HF HF').
      by apply (selects_alias cols c (F, opts')).
    + subst c. apply (norm_canonical (F, opts) HF).
  - apply lookup_ge_None in Hc. apply lookup_lt_Some in Hp.
    rewrite apply_aliases_labels_length in Hp. lia.
Qed.

Lemma canonical_present_intro (cols : list pystr) (F : pystr) (opts : list pystr)
    (c : pystr) :
  (F, opts) ∈ aliases -> c ∈ cols -> norm c ∈ opts ->
  F ∈ apply_aliases_labels cols.
Proof.
  intros HF Hc Hk.
  destruct (field_finds_header cols F opts c HF Hc Hk) as [g Hs].
  assert (g ∈ cols) as (p & Hp)%list_elem_of_lookup by apply Hs.
  apply list_elem_of_lookup. exists p.
  rewrite (apply_aliases_labels_lookup cols p g Hp).
  assert (build_rename_map aliases cols !! g = Some F) as ->; [|done].
  apply build_rename_map_lookup. by exists opts.
Qed.

(** X6: after alias resolution the canonical name of a field is among the
    labels exactly when some header has, as its search key, one of the
    aliases of that field. *)
Theorem apply_aliases_canonical_present (cols : list pystr) (F : pystr)
    (opts : list pystr) :
  (F, opts) ∈ aliases ->
  (F ∈ apply_aliases_labels cols <-> exists c, c ∈ cols /\ norm c ∈ opts).
Proof.
  intros HF. split.
  - by apply canonical_present_source.
  - intros (c & Hc & Hk). by apply (canonical_present_intro cols F opts c).
Qed.
End AliasResolution.

Section AliasStability.
Context `{PyText}.

Lemma norm_canonical_head (e : pystr * list pystr) :
  e ∈ aliases -> head e.2 = Some (norm e.1).
Proof.
  intros He.
  pose proof (proj1 (Forall_forall _ _) aliases_latin1 e He) as [Hl _].
  pose proof (proj1 (Forall_forall _ _) aliases_norm_latin1 e He) as [_ Hh].
  by rewrite norm_latin1.
Qed.

Lemma last_filter_split {A} (P : A -> Prop) `{!forall x, Decision (P x)}
    (l : list A) (g : A) :
  last (filter P l) = Some g ->
  exists pre post, l = pre ++ g :: post /\ P g /\ forall y, y ∈ post -> ~ P y.
Proof.
  induction l as [|x l IH] using rev_ind; [done|].
  rewrite filter_app, filter_cons, filter_nil.
  destruct (decide (P x)) as [HP|HP].
  - rewrite last_snoc. intros [= <-]. exists l, [].
    split; [done|]. split; [done|]. by intros y ?%elem_of_nil.
  - rewrite app_nil_r. intros (pre & post & -> & Hg & Hpost)%IH.
    exists pre, (post ++ [x]). split; [by rewrite <- app_assoc|]. split; [done|].
    intros y [Hy|Hy%list_elem_of_singleton]%elem_of_app; [by apply Hpost | by subst].
Qed.

Lemma last_app_cons_all {A} (l1 l2 : list A) (g : A) :
  (forall y, y ∈ l2 -> y = g) -> last (l1 ++ g :: l2) = Some g.
Proof.
  intros Hall. rewrite last_app_cons.
  induction l2 as [|y l2 IH] using rev_ind; [done|].
  rewrite app_comm_cons, last_snoc. f_equal. apply Hall.
  apply elem_of_app. right. by left.
Qed.

(** A resolved label whose key is an alias of a field comes from a header
    whose key is an alias of that field. *)
Lemma resolved_key_source (cols : list pystr) (G : pystr) (opts : list pystr) (c' : pystr) :
  (G, opts) ∈ aliases -> c' ∈ apply_aliases_labels cols -> norm c' ∈ opts ->
  exists c, c ∈ cols /\ norm c ∈ opts.
Proof.
  intros HG (p & Hp)%list_elem_of_lookup Hk.
  destruct (cols !! p) as [c|] eqn:Hc.
  - rewrite (apply_aliases_labels_lookup cols p c Hc) in Hp. injection Hp as Hp.
    exists c. split; [by eapply list_elem_of_lookup_2|].
    destruct (build_rename_map aliases cols !! c) as [F|] eqn:Hrm; simpl in Hp.
    + subst c'. apply build_rename_map_lookup in Hrm as (optsF & HF & Hs).
      pose proof (norm_canonical (F, optsF) HF) as HnF. simpl in HnF.
      pose proof (alias_entry_unique (F, optsF) (G, opts) (norm F) HF HG HnF Hk) as Heq.
      injection Heq as -> ->. by apply (selects_alias cols c (G, opts)).
    + by subst c'.
  - apply lookup_ge_None in Hc. apply lookup_lt_Some in Hp.
    rewrite apply_aliases_labels_length in Hp. lia.
Qed.

(** In resolved labels a field can only find its own canonical name. *)
Lemma resolved_found (cols : list pystr) (G : pystr) (opts : list pystr) (c' : pystr) :
  (G, opts) ∈ aliases ->
  found_original (col_norm_map (apply_aliases_labels cols)) opts = Some c' ->
  c' = G.
Proof.
  intros HG Hfound.
  pose proof Hfound as (a & Ha & Hl)%found_original_inv.
  apply col_norm_map_value in Hl as [Hn Hin].
  rewrite (norm_alias (G, opts) a HG Ha) in Hn.
  destruct (resolved_key_source cols G opts c' HG Hin) as (c & Hc & Hk);
    [by rewrite Hn|].
  destruct (field_finds_header cols G opts c HG Hc Hk) as [g Hs].
  pose proof (norm_canonical_head (G, opts) HG) as Hhead. simpl in Hhead.
  destruct opts as [|a1 rest]; [done|]. injection Hhead as Ha1.
  assert (norm a1 = a1) as Hna1 by (apply (norm_alias (G, a1 :: rest)); [done | by left]).
  (* the header found in the original columns, at its last position *)
  pose proof Hs as [Hg _].
  pose proof Hg as (ag & Hag & Hlg)%found_original_inv.
  pose proof (col_norm_map_value _ _ _ Hlg) as [Hng _].
  rewrite <- Hng, col_norm_map_lookup in Hlg.
  apply last_filter_split in Hlg as (pre & post & Hcols & _ & Hpost).
  assert (build_rename_map aliases cols !! g = Some G) as Hrg
    by (apply build_rename_map_lookup; by exists (a1 :: rest)).
  (* the lookup of the resolved columns holds [G] under the first alias *)
  assert (col_norm_map (apply_aliases_labels cols) !! a1 = Some G) as Hm'.
  { rewrite col_norm_map_lookup. unfold apply_aliases_labels, rename_labels.
    set (rm := build_rename_map aliases cols) in *.
    rewrite Hcols. rewrite map_app. cbn [map]. rewrite Hrg. cbn [default].
    rewrite filter_app, filter_cons, decide_True by done.
    apply last_app_cons_all.
    intros y' [Hy' Hin']%list_elem_of_filter.
    apply list_elem_of_fmap in Hin' as (y & -> & Hy).
    destruct (rm !! y) as [F|] eqn:Hry; simpl in *.
    - apply build_rename_map_lookup in Hry as (optsF & HF & _).
      pose proof (norm_canonical (F, optsF) HF) as HnF. simpl in HnF.
      assert (a1 ∈ a1 :: rest) as Hin1 by (by left).
      rewrite Hy' in HnF.
      pose proof (alias_entry_unique (F, optsF) (G, a1 :: rest) a1 HF HG HnF Hin1) as Heq.
      by injection Heq.
    - exfalso. apply (Hpost y Hy).
      assert (y ∈ cols) as Hyc.
      { rewrite Hcols. apply elem_of_app. right. by right. }
      destruct (col_norm_map_is_Some cols y Hyc) as [z Hz].
      rewrite Hy' in Hz. simpl in Hg. rewrite Hna1, Hz in Hg.
      injection Hg as ->. apply col_norm_map_value in Hz as [Hz _]. congruence. }
  simpl in Hfound. rewrite Hna1, Hm' in Hfound. by injection Hfound.
Qed.

(** X8: alias resolution is idempotent: resolving resolved labels changes
    nothing. *)
Theorem apply_aliases_idempotent (cols : list pystr) :
  apply_aliases_labels (apply_aliases_labels cols) = apply_aliases_labels cols.
Proof.
  set (cols' := apply_aliases_labels cols).
  unfold apply_aliases_labels at 1, rename_labels.
  rewrite <- (map_id cols') at 2. apply map_ext_in. intros c' _.
  destruct (build_rename_map aliases cols' !! c') as [G|] eqn:Hrm; [|done].
  apply build_rename_map_lookup in Hrm as (opts & HG & [Hf _]).
  simpl. symmetry. by apply (resolved_found cols G opts c').
Qed.
End AliasStability.

Section Gate.
Context `{PyText} `{PandasScalars}.

Lemma ensure_required_iff (df : DataFrame) :
  ensure_required df = Ok tt <-> forall c, c ∈ required -> c ∈ columns df.
Proof.
  split; [apply ensure_required_ok|].
  intros Hall. unfold ensure_required.
  assert (missing_columns df = []) as ->; [|done].
  apply elem_of_nil_inv. intros c [Hn Hc]%list_elem_of_filter.
  by apply Hn, Hall.
Qed.

(** X7: after alias resolution the schema gate lets a table through exactly
    when every required field has a header whose search key is one of the
    aliases of that field. *)
Theorem ensure_required_after_aliases (df : DataFrame) :
  ensure_required (apply_aliases df) = Ok tt <->
  forall F, F ∈ required ->
    exists opts c, (F, opts) ∈ aliases /\ c ∈ columns df /\ norm c ∈ opts.
Proof.
  rewrite ensure_required_iff. cbn [apply_aliases columns].
  split; intros Hall F HF.
  - pose proof (proj1 (Forall_forall _ _) required_in_aliases F HF) as He.
    apply Exists_exists in He as ([F' opts] & He & HF'). simpl in HF'. subst F'.
    destruct (canonical_present_source (columns df) F opts He (Hall F HF))
      as (c & Hc & Hk).
    by exists opts, c.
  - destruct (Hall F HF) as (opts & c & He & Hc & Hk).
    by apply (canonical_present_intro (columns df) F opts c).
Qed.
End Gate.

(** ** Row Cleaner and Filter Engine: errors, invariants, composition *)

Section Cleaning.
Context `{PyText} `{PandasScalars}.

Lemma label_positions_present (label : pystr) (cols : list pystr) (k : nat) :
  label ∈ cols -> label_positions label k cols <> [].
Proof.
  revert k. induction cols as [|c t IH]; intros k Hin; [by apply elem_of_nil in Hin|].
  simpl. destruct (decide (c = label)) as [->|Hne]; [done|].
  apply elem_of_cons in Hin as [?|Hin]; [congruence|]. by apply IH.
Qed.

(** Selecting a column fails with a [KeyError] exactly when the label is
    absent; a present label selects a Series or, when repeated, a frame. *)
Lemma column_index_error (label : pystr) (cols : list pystr) (e : error) :
  column_index label cols = Raise e ->
  ((label ∉ cols) /\ e = KeyError label) \/ (label ∈ cols /\ e = NotASeries label).
Proof.
  unfold column_index. intros He.
  destruct (decide (label ∈ cols)) as [Hin|Hn].
  - right. split; [done|]. pose proof (label_positions_present label cols 0 Hin).
    destruct (label_positions label 0 cols) as [|i [|j l]]; congruence.
  - left. split; [done|]. rewrite (label_positions_absent _ _ _ Hn) in He. congruence.
Qed.

Lemma column_index_absent (label : pystr) (cols : list pystr) :
  label ∉ cols -> column_index label cols = Raise (KeyError label).
Proof. intros Hn. unfold column_index. by rewrite (label_positions_absent _ _ _ Hn). Qed.

Lemma coerce_value_idem (v : cell) : coerce_value (coerce_value v) = coerce_value v.
Proof. destruct v as [|s|x]; simpl; try done. by destruct (parse_num s). Qed.

Lemma coerce_value_not_text (v : cell) (s : pystr) : coerce_value v <> Text s.
Proof. destruct v as [|t|x]; simpl; try done. by destruct (parse_num t). Qed.

Lemma cell_at_beyond (i : nat) (r : list cell) :
  (length r <= i)%nat -> cell_at i r = NaN.
Proof. intros Hi. unfold cell_at. by apply nth_overflow. Qed.

Lemma coerce_plazas_numeric_inv (df df' : DataFrame) :
  coerce_plazas_numeric df = Ok df' ->
  exists i, column_index (py "Plazas") (columns df) = Ok i
            /\ df' = {| columns := columns df;
                        rows := map (coerced_row (columns df)) (rows df) |}.
Proof.
  intros Hc. destruct (column_index (py "Plazas") (columns df)) as [i|e] eqn:Hi.
  - exists i. split; [done|].
    rewrite (coerce_plazas_numeric_index df i Hi) in Hc. by injection Hc.
  - unfold coerce_plazas_numeric in Hc. by rewrite Hi in Hc.
Qed.

Lemma coerced_row_not_text (cols : list pystr) (i : nat) (r : list cell) (s : pystr) :
  column_index (py "Plazas") cols = Ok i ->
  cell_at i (coerced_row cols r) <> Text s.
Proof.
  intros Hi. unfold coerced_row. rewrite Hi.
  destruct (decide (i < length r)%nat) as [Hlt|Hge].
  - rewrite cell_at_insert_eq by done. apply coerce_value_not_text.
  - rewrite list_insert_ge by lia. by rewrite cell_at_beyond by lia.
Qed.

(** X9: when the coercion of [Plazas] returns, the table has the same
    columns and as many rows, no text is left in [Plazas], the cells under
    every other label are untouched, and coercing again changes nothing. *)
Theorem coerce_plazas_numeric_effect (df df' : DataFrame) :
  coerce_plazas_numeric df = Ok df' ->
  columns df' = columns df
  /\ length (rows df') = length (rows df)
  /\ (forall r' s, r' ∈ rows df' ->
        label_cell (columns df) (py "Plazas") r' <> Text s)
  /\ (forall k r r' label,
        rows df !! k = Some r -> rows df' !! k = Some r' ->
        label <> py "Plazas" ->
        label_cell (columns df) label r' = label_cell (columns df) label r)
  /\ coerce_plazas_numeric df' = Ok df'.
Proof.
  intros (i & Hi & ->)%coerce_plazas_numeric_inv. cbn [columns rows].
  assert (forall r, coerced_row (columns df) r = <[i := coerce_value (cell_at i r)]> r)
    as Hrow by (intros r; unfold coerced_row; by rewrite Hi).
  split; [done|]. split; [apply length_map|]. split; [|split].
  - intros r' s (r & -> & _)%list_elem_of_fmap.
    rewrite (label_cell_index _ _ _ _ Hi). by apply coerced_row_not_text.
  - intros k r r' label Hr Hr' Hne.
    change (map ?f ?l) with (f <$> l) in Hr'.
    rewrite list_lookup_fmap, Hr in Hr'. injection Hr' as <-.
    unfold label_cell.
    destruct (column_index label (columns df)) as [j|e] eqn:Hj; [|done].
    rewrite Hrow. apply cell_at_insert_ne. intros ->.
    apply column_index_lookup in Hi, Hj. congruence.
  - rewrite (coerce_plazas_numeric_index _ i) by done. cbn [columns rows].
    f_equal. f_equal. rewrite List.map_map. apply map_ext. intros r.
    rewrite !Hrow.
    destruct (decide (i < length r)%nat) as [Hlt|Hge].
    + rewrite cell_at_insert_eq by done. rewrite coerce_value_idem.
      apply list_insert_insert_eq.
    + by rewrite !(list_insert_ge r) by lia.
Qed.

(** *** The cleaner on tables that lack some grouping columns *)

Lemma drop_total_step_present (df : DataFrame) (col : pystr) :
  NoDup (columns df) ->
  drop_total_step df col =
  Ok {| columns := columns df;
        rows := filter (fun r => col ∈ columns df ->
                                 ~ is_total_text (label_cell (columns df) col r))
                       (rows df) |}.
Proof.
  intros Hnd. destruct (decide (col ∈ columns df)) as [Hin|Hn].
  - destruct (column_index_NoDup col (columns df) Hnd Hin) as [i Hi].
    rewrite (drop_total_step_index df col i Hi). f_equal. f_equal.
    apply list_filter_iff. intros r. rewrite (label_cell_index _ _ _ r Hi). tauto.
  - unfold drop_total_step. rewrite bool_decide_eq_false_2 by done.
    rewrite filter_all by (intros r ?; done). by destruct df.
Qed.

(** X10: on a table with distinct labels the Row Cleaner raises a
    [KeyError] when [Tipo de Plaza] is absent; otherwise it returns, and a
    grouping column that is absent is skipped: the rows kept are those with
    [Tipo de Plaza] not null and no total text in the grouping columns that
    are present. *)
Theorem drop_total_like_rows_partial (df : DataFrame) :
  NoDup (columns df) ->
  (py "Tipo de Plaza" ∉ columns df ->
   drop_total_like_rows df = Raise (KeyError (py "Tipo de Plaza")))
  /\ (py "Tipo de Plaza" ∈ columns df ->
      drop_total_like_rows df =
      Ok {| columns := columns df;
            rows := filter (kept_present (columns df)) (rows df) |}).
Proof.
  intros Hnd. split.
  - intros Hn. unfold drop_total_like_rows, getitem.
    by rewrite (column_index_absent _ _ Hn).
  - intros Hin. destruct (column_index_NoDup _ _ Hnd Hin) as [it Ht].
    unfold drop_total_like_rows. rewrite (getitem_index _ _ _ Ht).
    cbn [mbind result_bind foldM_result]. unfold loc_mask.
    rewrite List.map_map, mask_rows_map.
    rewrite drop_total_step_present by done. cbn [mbind result_bind columns rows].
    rewrite drop_total_step_present by done. cbn [mbind result_bind columns rows].
    rewrite drop_total_step_present by done. cbn [mbind result_bind columns rows].
    rewrite drop_total_step_present by done. cbn [mbind result_bind columns rows].
    f_equal. f_equal. rewrite !list_filter_filter.
    apply list_filter_iff. intros r. unfold kept_present, grouping_columns.
    rewrite !Forall_cons, Forall_nil, (label_cell_index _ _ _ r Ht).
    destruct (cell_at it r); simpl; intuition congruence.
Qed.
End Cleaning.

Section PipelineFacts.
Context `{PyText} `{PandasScalars}.

Lemma getitem_error (df : DataFrame) (label : pystr) (e : error) :
  getitem df label = Raise e ->
  ((label ∉ columns df) /\ e = KeyError label)
  \/ (label ∈ columns df /\ e = NotASeries label).
Proof.
  unfold getitem. intros He. apply column_index_error.
  destruct (column_index label (columns df)) as [i|e']; cbn [mbind result_bind] in He;
    [done | by injection He as ->].
Qed.

Lemma getitem_ok_inv (df : DataFrame) (label : pystr) (s : list cell) :
  getitem df label = Ok s -> exists i, column_index label (columns df) = Ok i.
Proof.
  unfold getitem. destruct (column_index label (columns df)) as [i|e]; [|done].
  intros _. by exists i.
Qed.

Lemma drop_total_step_inv (df : DataFrame) (col : pystr) :
  match drop_total_step df col with
  | Ok df' =>
    columns df' = columns df
    /\ (col ∈ columns df -> exists i, column_index col (columns df) = Ok i)
  | Raise e => col ∈ columns df /\ e = NotASeries col
  end.
Proof.
  unfold drop_total_step. case_bool_decide as Hin.
  - destruct (getitem df col) as [s|e] eqn:Hg; cbn [mbind result_bind].
    + split; [done|]. intros _. by eapply getitem_ok_inv.
    + apply getitem_error in Hg as [[Hn _]|[_ ->]]; done.
  - split; [done|]. by intros ?.
Qed.

Lemma drop_total_fold_inv (cols : list pystr) (df : DataFrame) :
  match foldM_result drop_total_step df cols with
  | Ok df' =>
    forall col, col ∈ cols -> col ∈ columns df ->
                exists i, column_index col (columns df) = Ok i
  | Raise e => exists col, col ∈ cols /\ col ∈ columns df /\ e = NotASeries col
  end.
Proof.
  revert df. induction cols as [|c cols IH]; intros df; simpl.
  - by intros col ?%elem_of_nil.
  - pose proof (drop_total_step_inv df c) as Hstep.
    destruct (drop_total_step df c) as [df1|e]; cbn [mbind result_bind].
    + destruct Hstep as [Hcols Hc]. specialize (IH df1). rewrite Hcols in IH.
      destruct (foldM_result drop_total_step df1 cols) as [df'|e].
      * intros col [->|Hin]%elem_of_cons; [done | by apply IH].
      * destruct IH as (col & Hin & Hcol & ->). exists col.
        split; [by right | done].
    + destruct Hstep as [Hin ->]. exists c. split; [by left | done].
Qed.

(** What the Row Cleaner can raise, and what its returning implies. *)
Lemma drop_total_like_rows_inv (df : DataFrame) :
  match drop_total_like_rows df with
  | Ok df' =>
    (exists it, column_index (py "Tipo de Plaza") (columns df) = Ok it)
    /\ forall col, col ∈ grouping_columns -> col ∈ columns df ->
                   exists i, column_index col (columns df) = Ok i
  | Raise e =>
    ((py "Tipo de Plaza" ∉ columns df) /\ e = KeyError (py "Tipo de Plaza"))
    \/ exists col, col ∈ grouping_columns /\ col ∈ columns df /\ e = NotASeries col
  end.
Proof.
  unfold drop_total_like_rows.
  destruct (getitem df (py "Tipo de Plaza")) as [s|e] eqn:Hg; cbn [mbind result_bind].
  - pose proof (drop_total_fold_inv grouping_columns
                  (loc_mask df (map notna s))) as Hf.
    unfold grouping_columns in *.
    destruct (foldM_result drop_total_step _ _) as [df'|e].
    + split; [by eapply getitem_ok_inv | exact Hf].
    + right. exact Hf.
  - apply getitem_error in Hg as [[Hn ->]|[Hin ->]]; [by left|].
    right. exists (py "Tipo de Plaza"). split; [by_evaluation | done].
Qed.

Lemma grouping_columns_required (col : pystr) :
  col ∈ grouping_columns -> col ∈ required.
Proof.
  revert col. apply Forall_forall. by_evaluation.
Qed.

(** X11: the pipeline never ends in a [KeyError]: when it does not return a
    table it has either stopped at the schema gate or met a required label
    carried by more than one column. *)
Theorem pipeline_never_key_error (df0 : DataFrame) (e : error) :
  pipeline df0 = Raise e ->
  (exists shown, e = StopScript shown)
  \/ (exists label, label ∈ required /\ e = NotASeries label).
Proof.
  unfold pipeline. set (df := apply_aliases (normalize_columns df0)).
  destruct (ensure_required df) as [[]|e0] eqn:Hgate; cbn [mbind result_bind].
  - pose proof (ensure_required_ok df Hgate) as Hreq.
    destruct (coerce_plazas_numeric df) as [df1|e1] eqn:Hco; cbn [mbind result_bind].
    + apply coerce_plazas_numeric_inv in Hco as (i & Hi & ->).
      set (df1 := {| columns := columns df; rows := _ |}).
      pose proof (drop_total_like_rows_inv df1) as Hd.
      destruct (drop_total_like_rows df1) as [df2|e2]; [done|].
      intros [= <-]. right.
      destruct Hd as [[Hn _]|(col & Hg & _ & ->)].
      * exfalso. apply Hn. apply Hreq. by_evaluation.
      * exists col. split; [by apply grouping_columns_required | done].
    + intros [= <-]. right. exists (py "Plazas").
      unfold coerce_plazas_numeric in Hco.
      destruct (column_index (py "Plazas") (columns df)) as [i|e'] eqn:Hi;
        cbn [mbind result_bind] in Hco.
      * by rewrite to_numeric_coerce in Hco.
      * injection Hco as ->.
        apply column_index_error in Hi as [[Hn _]|[Hin ->]].
        -- exfalso. apply Hn, Hreq. by_evaluation.
        -- split; [by_evaluation | done].
  - intros [= <-]. left. unfold ensure_required in Hgate.
    destruct (missing_columns df); [done|]. injection Hgate as <-. by eexists.
Qed.

(** X12: a table the pipeline returns has the resolved labels of the
    normalised headers as columns, all required fields among them, and as
    rows a subsequence of the coerced input rows; no row has text in
    [Plazas], a null [Tipo de Plaza], or a total text in a grouping column. *)
Theorem pipeline_output_clean (df0 df : DataFrame) :
  pipeline df0 = Ok df ->
  columns df = apply_aliases_labels (normalize_labels (columns df0))
  /\ (forall c, c ∈ required -> c ∈ columns df)
  /\ rows df `sublist_of` map (coerced_row (columns df)) (rows df0)
  /\ forall r, r ∈ rows df ->
       (forall s, label_cell (columns df) (py "Plazas") r <> Text s)
       /\ kept_by_cleaner (columns df) r.
Proof.
  unfold pipeline. set (dfa := apply_aliases (normalize_columns df0)).
  destruct (ensure_required dfa) as [[]|e0] eqn:Hgate; cbn [mbind result_bind]; [|done].
  pose proof (ensure_required_ok dfa Hgate) as Hreq.
  destruct (coerce_plazas_numeric dfa) as [df1|e1] eqn:Hco; cbn [mbind result_bind]; [|done].
  apply coerce_plazas_numeric_inv in Hco as (i & Hi & ->).
  set (df1 := {| columns := columns dfa; rows := _ |}) in *.
  intros Hd. pose proof (drop_total_like_rows_inv df1) as Hinv. rewrite Hd in Hinv.
  destruct Hinv as [[it Ht] Hcols].
  assert (forall col, col ∈ grouping_columns ->
                      exists j, column_index col (columns df1) = Ok j) as Hidx.
  { intros col Hc. apply Hcols; [done|]. by apply Hreq, grouping_columns_required. }
  destruct (Hidx (py "Dirección")) as [id Hid]; [by_evaluation|].
  destruct (Hidx (py "Unidad")) as [iu Hiu]; [by_evaluation|].
  destruct (Hidx (py "Coordinación")) as [ic Hic]; [by_evaluation|].
  rewrite (drop_total_like_rows_index df1 it id iu ic Ht Hid Hiu Hic) in Hd.
  injection Hd as <-. cbn [columns rows].
  split; [done|]. split; [exact Hreq|]. split; [apply sublist_filter|].
  intros r [Hkept Hr]%list_elem_of_filter. split; [|exact Hkept].
  intros s. apply list_elem_of_fmap in Hr as (r0 & -> & _).
  rewrite (label_cell_index _ _ _ _ Hi). by apply coerced_row_not_text.
Qed.

(** X13: on a validated table with distinct labels cleaning twice is
    cleaning once, filtering twice with one selection is filtering once, and
    cleaning then filtering gives the table that filtering then cleaning
    gives. *)
Theorem cleaner_filter_compose (df : DataFrame) (sel : FilterSelection) :
  ensure_required df = Ok tt ->
  NoDup (columns df) ->
  (drop_total_like_rows df ≫= drop_total_like_rows) = drop_total_like_rows df
  /\ (filter_block df sel ≫= fun d => filter_block d sel) = filter_block df sel
  /\ (drop_total_like_rows df ≫= fun d => filter_block d sel)
     = (filter_block df sel ≫= drop_total_like_rows).
Proof.
  intros Hok Hnd.
  destruct (validated_index df (py "Tipo de Plaza") Hok Hnd) as [it Ht];
    [by_evaluation|].
  destruct (validated_index df (py "Dirección") Hok Hnd) as [id Hd];
    [by_evaluation|].
  destruct (validated_index df (py "Unidad") Hok Hnd) as [iu Hu];
    [by_evaluation|].
  destruct (validated_index df (py "Coordinación") Hok Hnd) as [ic Hc];
    [by_evaluation|].
  assert (forall rs, drop_total_like_rows {| columns := columns df; rows := rs |} =
                     Ok {| columns := columns df;
                           rows := filter (kept_by_cleaner (columns df)) rs |}) as Hdrop
    by (intros rs;
        exact (drop_total_like_rows_index {| columns := columns df; rows := rs |}
                 it id iu ic Ht Hd Hu Hc)).
  assert (forall rs, filter_block {| columns := columns df; rows := rs |} sel =
                     Ok {| columns := columns df;
                           rows := filter (selected_by (columns df) sel) rs |}) as Hfil
    by (intros rs;
        exact (filter_block_index {| columns := columns df; rows := rs |} sel
                 iu ic id Hu Hc Hd)).
  destruct df as [cols rs]. cbn [columns rows] in *.
  rewrite !Hdrop, !Hfil. cbn [mbind result_bind]. rewrite !Hdrop, !Hfil.
  split; [|split]; f_equal; f_equal; rewrite !list_filter_filter;
    apply list_filter_iff; intros r; tauto.
Qed.

(** X14: the three restrictions of the filter block may be applied in any
    order: on a validated table with distinct labels the reverse order gives
    the same table. *)
Theorem filter_block_order (df : DataFrame) (sel : FilterSelection) :
  ensure_required df = Ok tt ->
  NoDup (columns df) ->
  filter_block df sel =
  (df_f ← restrict (py "Dirección") (dir_sel sel) df;
   df_f ← restrict (py "Coordinación") (coord_sel sel) df_f;
   restrict (py "Unidad") (unidad_sel sel) df_f).
Proof.
  intros Hok Hnd.
  destruct (validated_index df (py "Dirección") Hok Hnd) as [id Hd];
    [by_evaluation|].
  destruct (validated_index df (py "Unidad") Hok Hnd) as [iu Hu];
    [by_evaluation|].
  destruct (validated_index df (py "Coordinación") Hok Hnd) as [ic Hc];
    [by_evaluation|].
  rewrite (filter_block_index df sel iu ic id Hu Hc Hd).
  rewrite (restrict_index _ _ _ id) by exact Hd. cbn [mbind result_bind].
  rewrite (restrict_index _ _ _ ic) by exact Hc. cbn [mbind result_bind columns rows].
  rewrite (restrict_index _ _ _ iu) by exact Hu. cbn [columns rows].
  f_equal. f_equal. rewrite !list_filter_filter.
  apply list_filter_iff. intros r. unfold selected_by.
  rewrite (label_cell_index _ _ _ r Hu), (label_cell_index _ _ _ r Hc),
    (label_cell_index _ _ _ r Hd). tauto.
Qed.
End PipelineFacts.

(** ** Charts and figures *)

Lemma total_count_app {A} (l k : list (A * nat)) :
  total_count (l ++ k) = (total_count l + total_count k)%nat.
Proof.
  unfold total_count. induction l as [|e l IH]; simpl; [done|]. rewrite IH. lia.
Qed.

Lemma total_count_Permutation {A} (l k : list (A * nat)) :
  l ≡ₚ k -> total_count l = total_count k.
Proof.
  unfold total_count. induction 1; simpl; lia.
Qed.

Lemma total_count_filter_split {A} (P : A * nat -> Prop) `{!forall x, Decision (P x)}
    (l : list (A * nat)) :
  total_count l =
  (total_count (filter P l) + total_count (filter (fun x => ~ P x) l))%nat.
Proof.
  rewrite <- total_count_app. symmetry.
  apply total_count_Permutation, filter_app_complement.
Qed.

Section Counting.
Context `{PandasScalars}.

Lemma count_of_filter_ne (v w : cell) (s : list cell) :
  w <> v -> count_of w (filter (fun x => x <> v) s) = count_of w s.
Proof.
  intros Hne. unfold count_of. rewrite list_filter_filter. f_equal.
  apply list_filter_iff. intros x. split; [tauto|]. intros ->. done.
Qed.

Lemma count_of_split (v : cell) (s : list cell) :
  (count_of v s + length (filter (fun x => x <> v) s))%nat = length s.
Proof.
  unfold count_of. rewrite <- length_app.
  apply Permutation_length, (filter_app_complement (fun x => x = v)).
Qed.

(** Counting each value of a duplicate-free list that covers the column
    counts every entry of the column once. *)
Lemma counts_cover (L s : list cell) :
  NoDup L -> (forall v, v ∈ s -> v ∈ L) ->
  total_count (map (fun v => (v, count_of v s)) L) = length s.
Proof.
  intros Hnd. revert s. induction Hnd as [|v L Hv Hnd IH]; intros s Hs.
  - destruct s as [|x s]; [done|]. exfalso. eapply elem_of_nil, Hs. by left.
  - cbn [map total_count foldr snd]. fold (@total_count cell).
    rewrite <- (count_of_split v s). f_equal.
    rewrite <- (IH (filter (fun x => x <> v) s)).
    + f_equal. apply map_ext_in. intros w Hw%list_elem_of_In.
      f_equal. symmetry. apply count_of_filter_ne. by intros ->.
    + intros x [Hne Hx]%list_elem_of_filter.
      apply Hs, elem_of_cons in Hx as [?|?]; done.
Qed.

Lemma value_counts_total (s : list cell) :
  total_count (value_counts s) = length s.
Proof.
  rewrite (total_count_Permutation _ _ (value_counts_Permutation s)).
  apply counts_cover; [apply unique_NoDup|]. intros v. by rewrite unique_elem.
Qed.

Lemma count_of_pos (v : cell) (s : list cell) : v ∈ s -> (0 < count_of v s)%nat.
Proof.
  intros Hv. unfold count_of.
  assert (v ∈ filter (fun w => w = v) s) as Hin by (by apply list_elem_of_filter).
  destruct (filter (fun w => w = v) s); [by apply elem_of_nil in Hin | simpl; lia].
Qed.

Lemma counts_by_inv (label fill : pystr) (df : DataFrame) (vc : list (cell * nat)) :
  counts_by label fill df = Ok vc ->
  total_count vc = length (rows df)
  /\ NoDup (map fst vc)
  /\ StronglySorted (fun a b => (b.2 <= a.2)%nat) vc
  /\ forall e, e ∈ vc -> e.1 <> NaN /\ (0 < e.2)%nat.
Proof.
  unfold counts_by. destruct (getitem df label) as [s|e] eqn:Hg;
    cbn [mbind result_bind]; [|done].
  intros [= <-].
  assert (length s = length (rows df)) as Hlen.
  { unfold getitem in Hg. destruct (column_index label (columns df));
      cbn [mbind result_bind] in Hg; [|done].
    injection Hg as <-. apply length_map. }
  split; [by rewrite value_counts_total, length_map|].
  split; [apply value_counts_NoDup|]. split; [apply value_counts_sorted|].
  intros e0 [Hin ->]%value_counts_elem. split; [|by apply count_of_pos].
  apply list_elem_of_fmap in Hin as (v & -> & _). by destruct v.
Qed.

(** X16: each of the three count charts (by [Dirección], by
    [Nivel Salarial], by [Tipo de Plaza]) accounts for every row of the view
    exactly once: its counts add up to the number of rows, no value is
    listed twice, no count is zero, the counts never increase, and a missing
    value is never listed as missing (it is counted under its label). *)
Theorem count_charts_cover_rows (df : DataFrame) (vc : list (cell * nat)) :
  dir_count df = Ok vc \/ nivel_count df = Ok vc \/ plaza_count df = Ok vc ->
  total_count vc = length (rows df)
  /\ NoDup (map fst vc)
  /\ StronglySorted (fun a b => (b.2 <= a.2)%nat) vc
  /\ forall e, e ∈ vc -> e.1 <> NaN /\ (0 < e.2)%nat.
Proof. intros [Hc|[Hc|Hc]]; by eapply counts_by_inv. Qed.

(** X17: the first chart shows at most [top_n] = 25 entries of the count by
    [Dirección], the first ones; every entry shown counts at least as many
    records as every entry left out; and the title says "Top 25" exactly
    when some entry is left out. *)
Theorem dir_count_plot_top (df : DataFrame) (vc : list (cell * nat)) :
  dir_count df = Ok vc ->
  dir_count_plot df = Ok (take top_n vc)
  /\ (length (take top_n vc) <= top_n)%nat
  /\ (forall shown hidden,
        shown ∈ take top_n vc -> hidden ∈ drop top_n vc ->
        (hidden.2 <= shown.2)%nat)
  /\ (dir_title df = Ok (py "Colaboradores por Dirección (Top 25)")
      <-> drop top_n vc <> []).
Proof.
  intros Hvc. unfold dir_count_plot, dir_title. rewrite Hvc. cbn [mbind result_bind].
  split; [done|]. split; [rewrite length_take; lia|]. split.
  - intros shown hidden Hs Hh.
    destruct (counts_by_inv _ _ _ _ Hvc) as (_ & _ & Hsorted & _).
    rewrite <- (take_drop top_n vc) in Hsorted.
    by apply (StronglySorted_app_1_elem_of _ _ _ _ _ Hsorted).
  - case_decide as Hlen.
    + split; [|done]. intros _ Hnil%drop_nil_inv. lia.
    + split; [intros [= Heq]; vm_compute in Heq; discriminate|].
      intros Hd. exfalso. apply Hd, drop_ge. lia.
Qed.

Lemma ORDEN_PUESTO_NoDup : NoDup ORDEN_PUESTO.
Proof. by_evaluation. Qed.

Lemma filter_map_fst (P : cell -> Prop) `{!forall x, Decision (P x)}
    (g : cell -> nat) (L : list cell) :
  filter (fun e : cell * nat => P e.1) (map (fun v => (v, g v)) L)
  = map (fun v => (v, g v)) (filter P L).
Proof.
  induction L as [|v L IH]; [done|].
  cbn [map]. rewrite !filter_cons. cbn [fst].
  destruct (decide (P v)); simpl; by rewrite IH.
Qed.

Lemma filter_value_counts (P : cell -> Prop) `{!forall x, Decision (P x)}
    (s : list cell) :
  filter (fun e : cell * nat => P e.1) (value_counts s)
  ≡ₚ map (fun v => (v, count_of v s)) (filter P (unique s)).
Proof. rewrite value_counts_Permutation. by rewrite filter_map_fst. Qed.

(** X18: the position-type chart accounts for every row of the view exactly
    once: its counts add up to the number of rows, and no position type is
    listed twice, whether it belongs to the hierarchy or not. *)
Theorem puesto_count_covers_rows (df : DataFrame) (pc : list (cell * nat)) :
  puesto_count df = Ok pc ->
  total_count pc = length (rows df) /\ NoDup (map fst pc).
Proof.
  intros Hpc.
  assert (exists i, column_index (py "Tipo de Puesto") (columns df) = Ok i) as [i Hi].
  { unfold puesto_count, getitem in Hpc.
    destruct (column_index (py "Tipo de Puesto") (columns df)) as [i|e]; [by exists i|done]. }
  pose proof (puesto_count_index df i Hi) as Hidx. cbv zeta in Hidx.
  set (s := map (fun r => fillna (Text (py "Sin Tipo de Puesto")) (cell_at i r)) (rows df))
    in Hidx.
  set (orden := map Text ORDEN_PUESTO) in Hidx.
  rewrite Hidx in Hpc. injection Hpc as <-. clear Hidx.
  assert (NoDup orden) as Hnd.
  { assert (Inj (=) (=) Text) as Hinj by (by intros ?? [= ?]).
    apply (NoDup_fmap_2 Text), ORDEN_PUESTO_NoDup. }
  split.
  - rewrite total_count_app.
    replace (length (rows df)) with (length s) by apply length_map.
    rewrite <- (value_counts_total s).
    rewrite (total_count_filter_split (fun e : cell * nat => e.1 ∈ orden) (value_counts s)).
    f_equal. apply total_count_Permutation. symmetry.
    pose proof (filter_value_counts (fun v => v ∈ orden) s) as Hperm.
    etrans; [exact Hperm|].
    apply (fmap_Permutation (fun v => (v, count_of v s))).
    apply NoDup_Permutation.
    + apply NoDup_filter, unique_NoDup.
    + by apply NoDup_filter.
    + intros v. rewrite !list_elem_of_filter, unique_elem. tauto.
  - rewrite map_app. apply NoDup_app. split; [|split].
    + rewrite List.map_map. simpl. rewrite List.map_id. by apply NoDup_filter.
    + intros v Hv Hv'. rewrite List.map_map in Hv. simpl in Hv.
      rewrite List.map_id in Hv. apply list_elem_of_filter in Hv as [_ Hv].
      apply list_elem_of_fmap in Hv' as (e & -> & [He _]%list_elem_of_filter).
      done.
    + apply NoDup_fst_filter, value_counts_NoDup.
Qed.
End Counting.

Section Figures.
Context `{PyText} `{PandasScalars}.

(** X15: on a validated, rectangular table with distinct labels, and with
    [str.upper] taking [nan] to [NAN], the figure "Registros con
    justificación" is the number of rows whose justification is not blank
    and not the text of a null; it never exceeds "Registros (detalle)"; and
    no row with an empty or blank justification is counted. *)
Theorem registros_justificacion_spec (df : DataFrame) :
  ensure_required df = Ok tt ->
  NoDup (columns df) ->
  rectangular df ->
  str_upper (py "nan") = py "NAN" ->
  let justified :=
    filter (fun r => is_justified (label_cell (columns df) (py "Justificación") r))
           (rows df) in
  registros_justificacion df = Ok (Z.of_nat (length justified))
  /\ (Z.of_nat (length justified) <= registros_detalle df)%Z
  /\ forall r, r ∈ justified ->
       label_cell (columns df) (py "Justificación") r <> NaN
       /\ forall s, label_cell (columns df) (py "Justificación") r = Text s ->
                    str_strip s <> [].
Proof.
  intros Hok Hnd Hrect Hup justified.
  destruct (validated_index df (py "Justificación") Hok Hnd) as [j Hj];
    [by_evaluation|].
  split; [|split].
  - unfold registros_justificacion.
    rewrite (justified_rows_index df j Hj Hrect). cbn [mbind result_bind rows].
    rewrite length_map. do 3 f_equal. subst justified.
    apply list_filter_iff. intros r. by rewrite (label_cell_index _ _ _ r Hj).
  - unfold registros_detalle. apply inj_le. apply length_filter.
  - intros r [[Hne [Hnan _]] _]%list_elem_of_filter. split.
    + intros Heq. rewrite Heq in Hnan. apply Hnan.
      replace (str_strip (astype_str NaN)) with (py "nan") by (vm_compute; reflexivity).
      exact Hup.
    + intros s Heq. by rewrite Heq in Hne.
Qed.
End Figures.

(** ** Header Normalizer and Alias Resolver together *)

Lemma control_to_space_map (s : pystr) :
  control_to_space s = map space_of_control s.
Proof.
  unfold control_to_space. rewrite !str_replace_char, !List.map_map.
  apply map_ext. intros x. unfold space_of_control, LF, CR, TAB, SP.
  destruct (N.eqb_spec x 10) as [->|E0]; [done|].
  destruct (N.eqb_spec x 13) as [->|E1]; [done|].
  done.
Qed.

Lemma isspace_letter (y : N) :
  (65 <= y <= 122) \/ (192 <= y <= 254) -> isspace y = false.
Proof.
  intros Hy. unfold isspace.
  repeat (apply orb_false_intro); try (apply N.eqb_neq; lia);
    apply andb_false_iff;
    first [left; apply N.leb_gt; lia | right; apply N.leb_gt; lia].
Qed.

Lemma lower_latin1_cases (x : N) :
  lower_latin1 x = x
  \/ (((65 <= x <= 90) \/ (192 <= x <= 222)) /\ lower_latin1 x = x + 32).
Proof.
  unfold lower_latin1.
  destruct ((65 <=? x) && (x <=? 90)) eqn:E1; simpl.
  - right. apply andb_true_iff in E1 as [?%N.leb_le ?%N.leb_le]. split; [lia | done].
  - destruct ((192 <=? x) && (x <=? 222) && negb (x =? 215)) eqn:E2; [|by left].
    right. apply andb_true_iff in E2 as [[?%N.leb_le ?%N.leb_le]%andb_true_iff _].
    split; [lia | done].
Qed.

Lemma lower_latin1_isspace (x : N) : isspace (lower_latin1 x) = isspace x.
Proof.
  destruct (lower_latin1_cases x) as [->|[Hx ->]]; [done|].
  rewrite !isspace_letter; [done | lia | lia].
Qed.

Lemma lower_latin1_space (x : N) : (lower_latin1 x =? SP) = (x =? SP).
Proof.
  unfold SP. destruct (lower_latin1_cases x) as [->|[Hx ->]]; [done|].
  destruct (N.eqb_spec (x + 32) 32), (N.eqb_spec x 32); lia || done.
Qed.

Lemma lower_latin1_control (x : N) :
  lower_latin1 (space_of_control x) = space_of_control (lower_latin1 x).
Proof.
  unfold space_of_control, LF, CR, TAB, SP.
  destruct (N.eqb_spec x 10) as [->|E0]; [done|].
  destruct (N.eqb_spec x 13) as [->|E1]; [done|].
  destruct (N.eqb_spec x 9) as [->|E2]; [done|].
  destruct (lower_latin1_cases x) as [->|[Hx ->]].
  - by rewrite (proj2 (N.eqb_neq _ _) E0), (proj2 (N.eqb_neq _ _) E1),
      (proj2 (N.eqb_neq _ _) E2).
  - destruct (N.eqb_spec (x + 32) 10); [lia|].
    destruct (N.eqb_spec (x + 32) 13); [lia|].
    destruct (N.eqb_spec (x + 32) 9); [lia|]. done.
Qed.

Lemma space_of_control_isspace (x : N) : isspace (space_of_control x) = isspace x.
Proof.
  unfold space_of_control, LF, CR, TAB, SP.
  destruct (N.eqb_spec x 10) as [->|E0]; [done|].
  destruct (N.eqb_spec x 13) as [->|E1]; [done|].
  destruct (N.eqb_spec x 9) as [->|E2]; done.
Qed.

Lemma isspace_SP : isspace SP = true.
Proof. reflexivity. Qed.

(** *** Stripping and mapping *)

Lemma lstrip_map (f : N -> N) (s : pystr) :
  (forall x, isspace (f x) = isspace x) -> lstrip (map f s) = map f (lstrip s).
Proof.
  intros Hf. induction s as [|x s IH]; simpl; [done|].
  rewrite Hf. by destruct (isspace x).
Qed.

Lemma str_strip_map (f : N -> N) (s : pystr) :
  (forall x, isspace (f x) = isspace x) -> str_strip (map f s) = map f (str_strip s).
Proof.
  intros Hf. unfold str_strip, rstrip.
  rewrite (lstrip_map f s Hf). set (l := lstrip s).
  change (map f l) with (f <$> l). rewrite <- (fmap_reverse f l).
  change (f <$> reverse l) with (map f (reverse l)).
  rewrite (lstrip_map f _ Hf).
  change (map f ?k) with (f <$> k). by rewrite fmap_reverse.
Qed.

Lemma lstrip_decompose (s : pystr) :
  exists w, s = w ++ lstrip s /\ Forall (fun c => isspace c = true) w.
Proof.
  induction s as [|x s (w & Hw & Hall)]; simpl.
  - by exists [].
  - destruct (isspace x) eqn:Hx.
    + exists (x :: w). split; [by rewrite Hw at 1 | by constructor].
    + by exists [].
Qed.

Lemma rstrip_decompose (s : pystr) :
  exists w, s = rstrip s ++ w /\ Forall (fun c => isspace c = true) w.
Proof.
  destruct (lstrip_decompose (reverse s)) as (w & Hw & Hall).
  exists (reverse w). split.
  - apply (f_equal reverse) in Hw. by rewrite reverse_involutive, reverse_app in Hw.
  - by apply Forall_reverse.
Qed.

Lemma lstrip_app_space (w s : pystr) :
  Forall (fun c => isspace c = true) w -> lstrip (w ++ s) = lstrip s.
Proof. induction 1 as [|x w Hx Hw IH]; simpl; [done|]. by rewrite Hx. Qed.

Lemma rstrip_app_space (s w : pystr) :
  Forall (fun c => isspace c = true) w -> rstrip (s ++ w) = rstrip s.
Proof.
  intros Hw. unfold rstrip. rewrite reverse_app, lstrip_app_space; [done|].
  by apply Forall_reverse.
Qed.

Lemma lstrip_all_space (w : pystr) :
  Forall (fun c => isspace c = true) w -> lstrip w = [].
Proof. intros Hw. rewrite <- (app_nil_r w). by rewrite lstrip_app_space. Qed.

Lemma rstrip_all_space (w : pystr) :
  Forall (fun c => isspace c = true) w -> rstrip w = [].
Proof. intros Hw. by rewrite <- (app_nil_l w), rstrip_app_space. Qed.

(** *** The single pass and white space *)

Lemma str_replace_double_map (f : N -> N) (s : pystr) :
  (forall x, (f x =? SP) = (x =? SP)) ->
  str_replace [SP; SP] [SP] (map f s) = map f (str_replace [SP; SP] [SP] s).
Proof.
  intros Hf. induction s as [|a|a b t IH1 IH2] using pystr_pair_ind.
  - done.
  - cbn [map]. by rewrite !str_replace_double_single.
  - cbn [map]. rewrite !str_replace_double_cons, !Hf.
    destruct ((a =? SP) && (b =? SP)) eqn:E; cbn [map].
    + rewrite IH1. f_equal. symmetry. apply N.eqb_eq. by rewrite Hf.
    + by rewrite <- IH2.
Qed.

Lemma str_replace_double_cons_other (x : N) (s : pystr) :
  x <> SP -> str_replace [SP; SP] [SP] (x :: s) = x :: str_replace [SP; SP] [SP] s.
Proof.
  intros Hx. destruct s as [|b t].
  - by rewrite str_replace_double_single.
  - rewrite str_replace_double_cons.
    by rewrite (proj2 (N.eqb_neq _ _) Hx).
Qed.

Lemma str_replace_double_app (w : pystr) (x : N) (r : pystr) :
  x <> SP ->
  str_replace [SP; SP] [SP] (w ++ x :: r) =
  str_replace [SP; SP] [SP] w ++ str_replace [SP; SP] [SP] (x :: r).
Proof.
  intros Hx. induction w as [|a|a b t IH1 IH2] using pystr_pair_ind.
  - done.
  - rewrite str_replace_double_single. cbn [app].
    rewrite str_replace_double_cons.
    by rewrite (proj2 (N.eqb_neq _ _) Hx), andb_false_r.
  - rewrite <- !app_comm_cons, !str_replace_double_cons.
    destruct ((a =? SP) && (b =? SP)).
    + by rewrite IH1.
    + rewrite app_comm_cons, IH2. done.
Qed.

Lemma str_replace_double_all_space (w : pystr) :
  Forall (fun c => isspace c = true) w ->
  Forall (fun c => isspace c = true) (str_replace [SP; SP] [SP] w).
Proof.
  intros Hw. apply Forall_forall. intros x Hx%str_replace_double_elem.
  by apply (proj1 (Forall_forall _ _) Hw).
Qed.

Lemma isspace_false_not_SP (x : N) : isspace x = false -> x <> SP.
Proof. intros Hx ->. by rewrite isspace_SP in Hx. Qed.

Lemma lstrip_replace_double (s : pystr) :
  lstrip (str_replace [SP; SP] [SP] s) = str_replace [SP; SP] [SP] (lstrip s).
Proof.
  destruct (lstrip_decompose s) as (w & Hs & Hw).
  destruct (lstrip s) as [|x r] eqn:Hl.
  - rewrite app_nil_r in Hs. subst w.
    by apply lstrip_all_space, str_replace_double_all_space.
  - assert (isspace x = false) as Hx by (apply (lstrip_head s); by rewrite Hl).
    rewrite Hs at 1.
    rewrite str_replace_double_app by (by apply isspace_false_not_SP).
    rewrite lstrip_app_space by (by apply str_replace_double_all_space).
    apply lstrip_id. intros c. rewrite str_replace_double_head. by intros [= <-].
Qed.

Lemma rstrip_replace_double (s : pystr) :
  rstrip (str_replace [SP; SP] [SP] s) = str_replace [SP; SP] [SP] (rstrip s).
Proof.
  destruct (rstrip_decompose s) as (w & Hs & Hw).
  destruct (rstrip s) as [|y l _] eqn:Hr using rev_ind.
  - simpl in Hs. subst w.
    by apply rstrip_all_space, str_replace_double_all_space.
  - assert (isspace y = false) as Hy
      by (apply (rstrip_last s); by rewrite Hr, last_snoc).
    pose proof (isspace_false_not_SP y Hy) as Hne.
    rewrite Hs at 1. rewrite <- app_assoc. cbn [app].
    rewrite str_replace_double_app by done.
    rewrite (str_replace_double_app l y []) by done.
    rewrite str_replace_double_cons_other, str_replace_double_single by done.
    rewrite (cons_middle y), app_assoc.
    rewrite rstrip_app_space by (by apply str_replace_double_all_space).
    apply rstrip_id. intros c. rewrite last_snoc. by intros [= <-].
Qed.

Lemma str_strip_replace_double (s : pystr) :
  str_strip (str_replace [SP; SP] [SP] s) = str_replace [SP; SP] [SP] (str_strip s).
Proof. unfold str_strip. by rewrite lstrip_replace_double, rstrip_replace_double. Qed.

(** *** The loop absorbs the single pass *)

Lemma collapse_loop_enough (f1 f2 : nat) (s : pystr) :
  (length s <= f1)%nat -> (length s <= f2)%nat ->
  collapse_loop f1 s = collapse_loop f2 s.
Proof.
  revert f2 s. induction f1 as [|f1 IH]; intros f2 s H1 H2.
  - destruct s; [|simpl in H1; lia]. by destruct f2.
  - destruct f2 as [|f2]; [destruct s; [done | simpl in H2; lia]|].
    simpl. destruct (str_contains [SP; SP] s) eqn:Hc; [|done].
    pose proof (str_replace_double_shrinks s Hc). apply IH; lia.
Qed.

Lemma collapse_spaces_replace (s : pystr) :
  collapse_spaces (str_replace [SP; SP] [SP] s) = collapse_spaces s.
Proof.
  destruct (str_contains [SP; SP] s) eqn:Hc.
  - pose proof (str_replace_double_shrinks s Hc) as Hlt.
    unfold collapse_spaces. destruct (length s) as [|n] eqn:Hn; [lia|].
    simpl. rewrite Hc. apply collapse_loop_enough; lia.
  - by rewrite str_replace_double_id.
Qed.

(** The search key under the Latin-1 case mapping: collapse, lower, strip,
    after the control characters have become spaces. *)
Lemma norm_latin1_form (s : pystr) :
  @norm latin1_text s =
  collapse_spaces (map lower_latin1 (str_strip (control_to_space s))).
Proof.
  unfold norm. cbn [str_lower latin1_text].
  fold (control_to_space (map lower_latin1 (str_strip s))).
  rewrite !control_to_space_map, List.map_map.
  rewrite (map_ext (fun x => space_of_control (lower_latin1 x))
                   (fun x => lower_latin1 (space_of_control x)))
    by (intros x; by rewrite lower_latin1_control).
  rewrite <- (List.map_map space_of_control lower_latin1).
  by rewrite <- (str_strip_map space_of_control) by apply space_of_control_isspace.
Qed.

(** For a header of Latin-1 text the search key of the normalised label is
    the search key of the raw header. *)
Lemma norm_normalize_label `{PyText} (c : pystr) :
  Forall (fun x => x < 256) c ->
  norm (normalize_label c) = norm c.
Proof.
  intros Hc.
  assert (Forall (fun x => x < 256) (normalize_label c)) as Hn.
  { apply Forall_forall. intros x Hx. unfold normalize_label in Hx.
    apply str_strip_elem, str_replace_double_elem in Hx.
    fold (control_to_space c) in Hx. rewrite control_to_space_map in Hx.
    apply list_elem_of_fmap in Hx as (y & -> & Hy).
    pose proof (proj1 (Forall_forall _ _) Hc y Hy) as Hlt. cbv beta in Hlt.
    unfold space_of_control, SP.
    destruct (y =? LF); [lia|]. destruct (y =? CR); [lia|].
    destruct (y =? TAB); [lia | done]. }
  rewrite (norm_latin1 (normalize_label c) Hn), (norm_latin1 c Hc).
  rewrite !norm_latin1_form.
  (* the normalised label holds no control character and has no edge space *)
  destruct (normalize_label_no_control c) as (H1 & H2 & H3).
  unfold control_to_space at 1.
  rewrite (str_replace_char_id LF), (str_replace_char_id CR),
    (str_replace_char_id TAB) by done.
  rewrite (str_strip_id (normalize_label c)) by apply str_strip_no_edge_space.
  unfold normalize_label. fold (control_to_space c).
  rewrite str_strip_replace_double.
  rewrite <- (str_replace_double_map lower_latin1) by apply lower_latin1_space.
  apply collapse_spaces_replace.
Qed.

Section RawHeaders.
Context `{PyText} `{PandasScalars}.

Lemma normalize_labels_key_iff (cols : list pystr) (opts : list pystr) :
  Forall (fun c : pystr => Forall (fun x => x < 256) c) cols ->
  (exists c', c' ∈ normalize_labels cols /\ norm c' ∈ opts)
  <-> (exists c, c ∈ cols /\ norm c ∈ opts).
Proof.
  intros Hl. split.
  - intros (c' & (c & -> & Hc)%list_elem_of_fmap & Hk). exists c. split; [done|].
    by rewrite <- (norm_normalize_label c)
      by (by apply (proj1 (Forall_forall _ _) Hl)).
  - intros (c & Hc & Hk). exists (normalize_label c).
    split; [by apply (list_elem_of_fmap_2 normalize_label)|].
    by rewrite (norm_normalize_label c)
      by (by apply (proj1 (Forall_forall _ _) Hl)).
Qed.

(** X19: on headers of Latin-1 text the Header Normalizer changes no search
    key, so alias resolution finds the same canonical fields with and
    without it: what its single pass leaves behind never changes which
    alias a header matches. *)
Theorem normalize_labels_keep_keys (cols : list pystr) :
  Forall (fun c : pystr => Forall (fun x => x < 256) c) cols ->
  map norm (normalize_labels cols) = map norm cols
  /\ forall F opts, (F, opts) ∈ aliases ->
        (F ∈ apply_aliases_labels (normalize_labels cols)
         <-> F ∈ apply_aliases_labels cols).
Proof.
  intros Hl. split.
  - unfold normalize_labels. rewrite List.map_map.
    apply map_ext_in. intros c Hc%list_elem_of_In.
    apply norm_normalize_label. by apply (proj1 (Forall_forall _ _) Hl).
  - intros F opts HF. split.
    + intros Hin. apply (canonical_present_source _ F opts HF) in Hin.
      apply (normalize_labels_key_iff cols opts Hl) in Hin as (c & Hc & Hk).
      by apply (canonical_present_intro cols F opts c).
    + intros Hin. apply (canonical_present_source _ F opts HF) in Hin.
      apply (normalize_labels_key_iff cols opts Hl) in Hin as (c' & Hc' & Hk).
      by apply (canonical_present_intro _ F opts c').
Qed.

(** X20: for a raw table with Latin-1 headers the pipeline passes the
    schema gate exactly when every required field has a raw header whose
    search key is one of the aliases of that field. *)
Theorem pipeline_gate_raw_headers (df0 : DataFrame) :
  Forall (fun c : pystr => Forall (fun x => x < 256) c) (columns df0) ->
  ensure_required (apply_aliases (normalize_columns df0)) = Ok tt <->
  forall F, F ∈ required ->
    exists opts c, (F, opts) ∈ aliases /\ c ∈ columns df0 /\ norm c ∈ opts.
Proof.
  intros Hl. rewrite ensure_required_iff. cbn [apply_aliases normalize_columns columns].
  split; intros Hall F HF.
  - pose proof (proj1 (Forall_forall _ _) required_in_aliases F HF) as He.
    apply Exists_exists in He as ([F' opts] & He & HF'). simpl in HF'. subst F'.
    pose proof (canonical_present_source _ F opts He (Hall F HF)) as Hsrc.
    apply (normalize_labels_key_iff _ opts Hl) in Hsrc as (c & Hc & Hk).
    by exists opts, c.
  - destruct (Hall F HF) as (opts & c & He & Hc & Hk).
    assert (exists c', c' ∈ normalize_labels (columns df0) /\ norm c' ∈ opts)
      as (c' & Hc' & Hk') by (apply (normalize_labels_key_iff _ opts Hl); by exists c).
    by apply (canonical_present_intro _ F opts c' He).
Qed.
End RawHeaders.

(** * Runs of the model

    The statements above at sample inputs, with Latin-1 case mapping and whole
    numbers for the scalars. *)

#[local] Existing Instance latin1_text.

Lemma drop_total_like_rows_spec_sample :
  ensure_required sample_df = Ok tt
  /\ NoDup (columns sample_df)
  /\ drop_total_like_rows sample_df =
     Ok {| columns := columns sample_df;
           rows := filter (kept_by_cleaner (columns sample_df)) (rows sample_df) |}.
Proof.
  assert (ensure_required sample_df = Ok tt) as Hok by (vm_compute; reflexivity).
  assert (NoDup (columns sample_df)) as Hnd by by_evaluation.
  split; [exact Hok|]. split; [exact Hnd|].
  exact (drop_total_like_rows_spec sample_df Hok Hnd).
Defined.

Lemma coerce_plazas_never_raises_sample :
  ensure_required sample_df = Ok tt
  /\ NoDup (columns sample_df)
  /\ rectangular sample_df
  /\ coerce_plazas_numeric sample_df =
     Ok {| columns := columns sample_df;
           rows := map (coerced_row (columns sample_df)) (rows sample_df) |}
  /\ plazas_suma sample_df =
     Ok (num_int (justified_total (columns sample_df) (rows sample_df))).
Proof.
  assert (ensure_required sample_df = Ok tt) as Hok by (vm_compute; reflexivity).
  assert (NoDup (columns sample_df)) as Hnd by by_evaluation.
  assert (rectangular sample_df) as Hrect by by_evaluation.
  split; [exact Hok|]. split; [exact Hnd|]. split; [exact Hrect|].
  destruct (coerce_plazas_never_raises sample_df Hok Hnd Hrect) as (Hc & _ & Hs & _).
  split; [exact Hc | exact Hs].
Defined.

Lemma apply_aliases_single_header_sample :
  (py "Tipo de Plaza", [py "tipo de plaza"; py "tipo plaza"; py "tipo_plaza"]) ∈ aliases
  /\ norm sample_single_header = py "tipo plaza"
  /\ apply_aliases_labels (sample_single_pre ++ sample_single_header :: sample_single_post)
     = sample_single_pre ++ py "Tipo de Plaza" :: sample_single_post.
Proof.
  assert ((py "Tipo de Plaza", [py "tipo de plaza"; py "tipo plaza"; py "tipo_plaza"])
          ∈ aliases) as HF by by_evaluation.
  assert (norm sample_single_header = py "tipo plaza") as Hh
    by (vm_compute; reflexivity).
  split; [exact HF|]. split; [exact Hh|].
  refine (proj1 (apply_aliases_single_header _ _ (py "tipo plaza") _ _ _ HF _ Hh _)).
  - by_evaluation.
  - apply no_alias_criterion. by_evaluation.
Defined.

Lemma filter_block_spec_sample :
  ensure_required sample_clean = Ok tt
  /\ NoDup (columns sample_clean)
  /\ filter_block sample_clean sample_selection =
     Ok {| columns := columns sample_clean;
           rows := filter (selected_by (columns sample_clean) sample_selection)
                          (rows sample_clean) |}.
Proof.
  assert (ensure_required sample_clean = Ok tt) as Hok by (vm_compute; reflexivity).
  assert (NoDup (columns sample_clean)) as Hnd by by_evaluation.
  split; [exact Hok|]. split; [exact Hnd|].
  exact (proj1 (filter_block_spec sample_clean sample_selection Hok Hnd)).
Defined.

Lemma puesto_count_order_sample :
  ensure_required sample_df = Ok tt
  /\ NoDup (columns sample_df)
  /\ exists ordered others,
       puesto_count sample_df = Ok (ordered ++ others)
       /\ NoDup (map fst others)
       /\ StronglySorted (fun a b => (b.2 <= a.2)%nat) others.
Proof.
  assert (ensure_required sample_df = Ok tt) as Hok by (vm_compute; reflexivity).
  assert (NoDup (columns sample_df)) as Hnd by by_evaluation.
  split; [exact Hok|]. split; [exact Hnd|].
  destruct (puesto_count_order sample_df Hok Hnd)
    as (ordered & others & Hp & _ & _ & Hdup & Hsorted).
  exists ordered, others. split; [exact Hp|]. split; [exact Hdup | exact Hsorted].
Defined.

Lemma apply_aliases_last_header_wins_sample :
  (py "Coordinación", [py "coordinación"; py "coordinacion"]) ∈ aliases
  /\ norm sample_twice_header = py "coordinacion"
  /\ apply_aliases_labels (sample_twice_pre ++ sample_twice_header :: sample_twice_post)
       !! length sample_twice_pre = Some (py "Coordinación")
  /\ apply_aliases_labels (sample_twice_pre ++ sample_twice_header :: sample_twice_post)
       !! 0%nat = Some (py "coordinacion").
Proof.
  assert ((py "Coordinación", [py "coordinación"; py "coordinacion"]) ∈ aliases) as HF
    by by_evaluation.
  assert (norm sample_twice_header = py "coordinacion") as Hh
    by (vm_compute; reflexivity).
  split; [exact HF|]. split; [exact Hh|].
  destruct (apply_aliases_last_header_wins _ _ 1%nat (py "coordinacion")
              sample_twice_header sample_twice_pre sample_twice_post HF eq_refl Hh)
    as [Hlast Hrest].
  - intros c Hc. revert c Hc. apply Forall_forall. by_evaluation.
  - apply no_earlier_alias_criterion. by_evaluation.
  - split; [exact Hlast|]. apply Hrest.
    + reflexivity.
    + vm_compute. reflexivity.
    + vm_compute. discriminate.
Defined.

Lemma row_dropping_subsequence_sample :
  drop_total_like_rows sample_df = Ok sample_clean
  /\ row_subsequence sample_clean sample_df.
Proof.
  assert (drop_total_like_rows sample_df = Ok sample_clean) as Hd
    by (vm_compute; reflexivity).
  split; [exact Hd|].
  exact (row_dropping_subsequence sample_df sample_clean (or_introl Hd)).
Defined.

(** C9 as stated fails: in [coordinacion, COORDINACION, coordinación] the
    first two headers are distinct and have the search key [coordinacion], an
    alias of [Coordinación], and [COORDINACION] is the last header with that
    key; yet it keeps its label, because the alias [coordinación], earlier in
    the list of the field, is the key of the third header, which is the one
    renamed. *)
Lemma apply_aliases_last_header_overridden :
  ~ (forall (F : pystr) (opts : list pystr) (a h : pystr) (pre post : list pystr),
        (F, opts) ∈ aliases ->
        a ∈ opts ->
        norm h = a ->
        (exists h', h' ∈ pre /\ h' <> h /\ norm h' = a) ->
        (forall c, c ∈ post -> norm c <> a) ->
        apply_aliases_labels (pre ++ h :: post) !! length pre = Some F).
Proof.
  intros Hclaim.
  assert (apply_aliases_labels sample_overridden !! 1%nat = Some (py "Coordinación"))
    as Hrenamed.
  { apply (Hclaim (py "Coordinación") [py "coordinación"; py "coordinacion"]
                  (py "coordinacion") (py "COORDINACION")
                  [py "coordinacion"] [py "coordinación"]).
    - by_evaluation.
    - by_evaluation.
    - vm_compute. reflexivity.
    - exists (py "coordinacion"). split; [by_evaluation|].
      split; vm_compute; [discriminate | reflexivity].
    - apply Forall_forall. by_evaluation. }
  vm_compute in Hrenamed. discriminate.
Qed.

Lemma normalize_label_collapses_pairs_sample :
  str_contains [SP; SP; SP] (control_to_space sample_label) = false
  /\ str_contains [SP; SP] (normalize_label sample_label) = false.
Proof.
  assert (str_contains [SP; SP; SP] (control_to_space sample_label) = false) as Hc
    by (vm_compute; reflexivity).
  split; [exact Hc|].
  exact (normalize_label_collapses_pairs sample_label Hc).
Defined.

Lemma apply_aliases_canonical_present_sample :
  (py "Tipo de Plaza", [py "tipo de plaza"; py "tipo plaza"; py "tipo_plaza"]) ∈ aliases
  /\ py "Tipo de Plaza" ∈ apply_aliases_labels sample_raw_columns.
Proof.
  assert ((py "Tipo de Plaza", [py "tipo de plaza"; py "tipo plaza"; py "tipo_plaza"])
          ∈ aliases) as HF by by_evaluation.
  split; [exact HF|].
  apply (proj2 (apply_aliases_canonical_present sample_raw_columns _ _ HF)).
  exists (py "Tipo  de Plaza"). split; by_evaluation.
Defined.

Lemma coerce_plazas_numeric_effect_sample :
  coerce_plazas_numeric sample_df = Ok sample_coerced
  /\ (forall r' s, r' ∈ rows sample_coerced ->
        label_cell (columns sample_df) (py "Plazas") r' <> Text s)
  /\ coerce_plazas_numeric sample_coerced = Ok sample_coerced.
Proof.
  assert (coerce_plazas_numeric sample_df = Ok sample_coerced) as Hc by reflexivity.
  split; [exact Hc|].
  destruct (coerce_plazas_numeric_effect sample_df sample_coerced Hc)
    as (_ & _ & H3 & _ & H5).
  split; [exact H3 | exact H5].
Defined.

Lemma drop_total_like_rows_partial_sample :
  NoDup (columns sample_partial)
  /\ py "Tipo de Plaza" ∈ columns sample_partial
  /\ (py "Unidad" ∉ columns sample_partial)
  /\ drop_total_like_rows sample_partial =
     Ok {| columns := columns sample_partial;
           rows := filter (kept_present (columns sample_partial))
                          (rows sample_partial) |}.
Proof.
  assert (NoDup (columns sample_partial)) as Hnd by by_evaluation.
  assert (py "Tipo de Plaza" ∈ columns sample_partial) as Hin by by_evaluation.
  split; [exact Hnd|]. split; [exact Hin|]. split; [by_evaluation|].
  exact (proj2 (drop_total_like_rows_partial sample_partial Hnd) Hin).
Defined.

Lemma pipeline_never_key_error_sample :
  pipeline sample_dup = Raise (NotASeries (py "Plazas"))
  /\ ((exists shown, NotASeries (py "Plazas") = StopScript shown)
      \/ (exists label, label ∈ required /\ NotASeries (py "Plazas") = NotASeries label)).
Proof.
  assert (pipeline sample_dup = Raise (NotASeries (py "Plazas"))) as Hp
    by reflexivity.
  split; [exact Hp|].
  exact (pipeline_never_key_error sample_dup _ Hp).
Defined.

Lemma pipeline_output_clean_sample :
  pipeline sample_raw = Ok sample_raw_clean
  /\ columns sample_raw_clean
     = apply_aliases_labels (normalize_labels (columns sample_raw))
  /\ rows sample_raw_clean
     `sublist_of` map (coerced_row (columns sample_raw_clean)) (rows sample_raw).
Proof.
  assert (pipeline sample_raw = Ok sample_raw_clean) as Hp by reflexivity.
  split; [exact Hp|].
  destruct (pipeline_output_clean sample_raw sample_raw_clean Hp) as (H1 & _ & H3 & _).
  split; [exact H1 | exact H3].
Defined.

Lemma cleaner_filter_compose_sample :
  ensure_required sample_df = Ok tt
  /\ NoDup (columns sample_df)
  /\ (drop_total_like_rows sample_df ≫= fun d => filter_block d sample_selection)
     = (filter_block sample_df sample_selection ≫= drop_total_like_rows).
Proof.
  assert (ensure_required sample_df = Ok tt) as Hok by (vm_compute; reflexivity).
  assert (NoDup (columns sample_df)) as Hnd by by_evaluation.
  split; [exact Hok|]. split; [exact Hnd|].
  exact (proj2 (proj2 (cleaner_filter_compose sample_df sample_selection Hok Hnd))).
Defined.

Lemma filter_block_order_sample :
  ensure_required sample_clean = Ok tt
  /\ NoDup (columns sample_clean)
  /\ filter_block sample_clean sample_selection =
     (df_f ← restrict (py "Dirección") (dir_sel sample_selection) sample_clean;
      df_f ← restrict (py "Coordinación") (coord_sel sample_selection) df_f;
      restrict (py "Unidad") (unidad_sel sample_selection) df_f).
Proof.
  assert (ensure_required sample_clean = Ok tt) as Hok by (vm_compute; reflexivity).
  assert (NoDup (columns sample_clean)) as Hnd by by_evaluation.
  split; [exact Hok|]. split; [exact Hnd|].
  exact (filter_block_order sample_clean sample_selection Hok Hnd).
Defined.

Lemma registros_justificacion_spec_sample :
  ensure_required sample_df = Ok tt
  /\ NoDup (columns sample_df)
  /\ rectangular sample_df
  /\ str_upper (py "nan") = py "NAN"
  /\ registros_justificacion sample_df =
     Ok (Z.of_nat (length
           (filter (fun r => is_justified
                               (label_cell (columns sample_df) (py "Justificación") r))
                   (rows sample_df)))).
Proof.
  assert (ensure_required sample_df = Ok tt) as Hok by (vm_compute; reflexivity).
  assert (NoDup (columns sample_df)) as Hnd by by_evaluation.
  assert (rectangular sample_df) as Hrect by by_evaluation.
  assert (str_upper (py "nan") = py "NAN") as Hup by (vm_compute; reflexivity).
  split; [exact Hok|]. split; [exact Hnd|]. split; [exact Hrect|]. split; [exact Hup|].
  exact (proj1 (registros_justificacion_spec sample_df Hok Hnd Hrect Hup)).
Defined.

Lemma count_charts_cover_rows_sample :
  plaza_count sample_df = Ok sample_plaza_counts
  /\ total_count sample_plaza_counts = length (rows sample_df)
  /\ forall e, e ∈ sample_plaza_counts -> e.1 <> NaN /\ (0 < e.2)%nat.
Proof.
  assert (plaza_count sample_df = Ok sample_plaza_counts) as Hvc by reflexivity.
  split; [exact Hvc|].
  destruct (count_charts_cover_rows sample_df sample_plaza_counts
              (or_intror (or_intror Hvc))) as (H1 & _ & _ & H4).
  split; [exact H1 | exact H4].
Defined.

Lemma dir_count_plot_top_sample :
  dir_count sample_many = Ok sample_many_counts
  /\ length (drop top_n sample_many_counts) = 2%nat
  /\ dir_count_plot sample_many = Ok (take top_n sample_many_counts)
  /\ dir_title sample_many = Ok (py "Colaboradores por Dirección (Top 25)").
Proof.
  assert (dir_count sample_many = Ok sample_many_counts) as Hvc by reflexivity.
  assert (length (drop top_n sample_many_counts) = 2%nat) as Hlen
    by (vm_compute; reflexivity).
  split; [exact Hvc|]. split; [exact Hlen|].
  destruct (dir_count_plot_top sample_many sample_many_counts Hvc)
    as (H1 & _ & _ & H4).
  split; [exact H1|]. apply (proj2 H4).
  intros Hd. rewrite Hd in Hlen. discriminate.
Defined.

Lemma puesto_count_covers_rows_sample :
  puesto_count sample_puestos = Ok sample_puesto_counts
  /\ total_count sample_puesto_counts = length (rows sample_puestos)
  /\ NoDup (map fst sample_puesto_counts).
Proof.
  assert (puesto_count sample_puestos = Ok sample_puesto_counts) as Hpc
    by reflexivity.
  split; [exact Hpc|].
  exact (puesto_count_covers_rows sample_puestos sample_puesto_counts Hpc).
Defined.

Lemma normalize_labels_keep_keys_sample :
  Forall (fun c : pystr => Forall (fun x => x < 256) c) sample_raw_columns
  /\ map norm (normalize_labels sample_raw_columns) = map norm sample_raw_columns.
Proof.
  assert (Forall (fun c : pystr => Forall (fun x => x < 256) c) sample_raw_columns)
    as Hl by by_evaluation.
  split; [exact Hl|].
  exact (proj1 (normalize_labels_keep_keys sample_raw_columns Hl)).
Defined.

Lemma pipeline_gate_raw_headers_sample :
  Forall (fun c : pystr => Forall (fun x => x < 256) c) (columns sample_raw)
  /\ forall F, F ∈ required ->
       exists opts c, (F, opts) ∈ aliases /\ c ∈ columns sample_raw /\ norm c ∈ opts.
Proof.
  assert (Forall (fun c : pystr => Forall (fun x => x < 256) c) (columns sample_raw))
    as Hl by by_evaluation.
  split; [exact Hl|].
  apply (proj1 (pipeline_gate_raw_headers sample_raw Hl)).
  vm_compute. reflexivity.
Defined.
